(** * NapiProjekt provider: hash derivation and request/response contract

    A shallow embedding of [subliminal/providers/napiprojekt.py]:
    [get_subhash], the [NapiProjektSubtitle] record with its [content]
    setter and [get_matches], and the [NapiProjektProvider] operations
    [query] and [list_subtitles].

    Python values are modelled as follows.
    - [str]: a [string] whose characters are the code points below 256;
    - [bytes]: a [list byte];
    - [int]: [Z] (Python integers are unbounded);
    - [dict] with string keys: [gmap string _] where only lookups happen,
      an association list where insertion order is observable;
    - [set] of strings: [gset string];
    - an operation that may raise: a value of [result], threaded with the
      bind of an error monad. *)

From Stdlib Require Import ZArith Lia Ascii String List.
From Stdlib Require Import Strings.Byte.
From stdpp Require Import base option list gmap strings.

Local Open Scope Z_scope.

(** ** Exceptions and the error monad *)

Inductive exn : Type :=
| IndexError
| ValueError
| KeyError
| AttributeError
| LanguageConvertError
| RequestException
| HTTPError
| FFmpegError
| UnicodeDecodeError
| OSError.

Inductive result (A : Type) : Type :=
| Ok (a : A)
| Raise (e : exn).
Arguments Ok {A} a.
Arguments Raise {A} e.

#[global] Instance result_ret : MRet result := λ A a, Ok a.
#[global] Instance result_bind : MBind result := λ A B f m,
  match m with
  | Ok a => f a
  | Raise e => Raise e
  end.

Definition is_Ok {A} (r : result A) : bool :=
  match r with Ok _ => true | Raise _ => false end.

(** ** Python string and list primitives *)

Module Py.

Definition len (s : string) : Z := Z.of_nat (String.length s).

(** [s[i]] on a [str]: a negative index counts from the end, an index
    out of range raises [IndexError]; the result is a string of length
    one. *)
Definition str_getitem (s : string) (i : Z) : result string :=
  let j := if i <? 0 then i + len s else i in
  if (j <? 0) || (len s <=? j) then Raise IndexError
  else match String.get (Z.to_nat j) s with
       | Some c => Ok (String c EmptyString)
       | None => Raise IndexError
       end.

(** A slice bound as [slice.indices] adjusts it for step 1. *)
Definition clamp (n k : Z) : Z :=
  if k <? 0 then Z.max 0 (k + n) else Z.min k n.

(** [s[lo:hi]]: never raises; bounds are clamped to the string. *)
Definition str_slice (s : string) (lo hi : Z) : string :=
  let lo' := clamp (len s) lo in
  let hi' := clamp (len s) hi in
  if hi' <=? lo' then EmptyString
  else String.substring (Z.to_nat lo') (Z.to_nat (hi' - lo')) s.

(** [l[i]] on a list, for the non-negative indices [range] yields. *)
Definition list_getitem {A} (l : list A) (i : nat) : result A :=
  match l !! i with
  | Some x => Ok x
  | None => Raise IndexError
  end.

(** [sep.join(l)] with the empty separator. *)
Fixpoint join (l : list string) : string :=
  match l with
  | [] => EmptyString
  | s :: l' => s +:+ join l'
  end.

(** *** [int(s, 16)] *)

(** Value of a hexadecimal digit, either case. *)
Definition hexval (c : ascii) : option Z :=
  let n := Z.of_nat (nat_of_ascii c) in
  if (48 <=? n) && (n <=? 57) then Some (n - 48)
  else if (97 <=? n) && (n <=? 102) then Some (n - 87)
  else if (65 <=? n) && (n <=? 70) then Some (n - 55)
  else None.

(** White space as the integer parser sees it: tab, line feed, vertical
    tab, form feed, carriage return and space, and among the code points
    from 128 to 255 the two Unicode spaces U+0085 and U+00A0. *)
Definition is_space (c : ascii) : bool :=
  let n := Z.of_nat (nat_of_ascii c) in
  ((9 <=? n) && (n <=? 13)) || (n =? 32) || (n =? 133) || (n =? 160).

Definition is_underscore (c : ascii) : bool := Ascii.eqb c "_".

Fixpoint lstrip (s : string) : string :=
  match s with
  | String c s' => if is_space c then lstrip s' else s
  | EmptyString => s
  end.

(** The digit loop: hexadecimal digits with single underscores between
    them.  [prev_us] tells whether the previous character was an
    underscore; the result is the value, the number of digits read and
    the unread rest, or [None] on a doubled or trailing underscore. *)
Fixpoint scan_digits (s : string) (prev_us : bool) (acc : Z) (n : nat)
  : option (Z * nat * string) :=
  match s with
  | String c s' =>
      if is_underscore c then
        if prev_us then None else scan_digits s' true acc n
      else
        match hexval c with
        | Some d => scan_digits s' false (16 * acc + d) (S n)
        | None => if prev_us then None else Some (acc, n, s)
        end
  | EmptyString => if prev_us then None else Some (acc, n, s)
  end.

(** After an optional sign: the optional [0x] or [0X] prefix, which
    may be followed by one underscore. *)
Definition skip_prefix (s : string) : string :=
  match s with
  | String "0" (String c s') =>
      if Ascii.eqb c "x" || Ascii.eqb c "X" then
        match s' with
        | String "_" s'' => s''
        | _ => s'
        end
      else s
  | _ => s
  end.

Definition int16 (s : string) : result Z :=
  let s := lstrip s in
  let '(sign, s) :=
    match s with
    | String "+" s' => (1, s')
    | String "-" s' => (-1, s')
    | _ => (1, s)
    end in
  let s := skip_prefix s in
  match s with
  | String "_" _ => Raise ValueError
  | _ =>
      match scan_digits s false 0 0 with
      | None => Raise ValueError
      | Some (_, O, _) => Raise ValueError
      | Some (v, S _, rest) =>
          match lstrip rest with
          | EmptyString => Ok (sign * v)
          | String _ _ => Raise ValueError
          end
      end
  end.

(** *** ["%x" % n] *)

Definition hex_digit (d : Z) : ascii :=
  match String.get (Z.to_nat d) "0123456789abcdef" with
  | Some c => c
  | None => "0"%char
  end.

Fixpoint hex_of (fuel : nat) (n : Z) : string :=
  match fuel with
  | O => EmptyString
  | S fuel' =>
      if n <? 16 then String (hex_digit n) EmptyString
      else hex_of fuel' (n / 16) +:+ String (hex_digit (n mod 16)) EmptyString
  end.

(** Lowercase hexadecimal without prefix; a negative number prints its
    sign and then its absolute value. *)
Definition format_x (n : Z) : string :=
  let digits a := hex_of (S (Z.to_nat (Z.log2 a))) a in
  if n <? 0 then String "-" (digits (- n)) else digits n.

End Py.

(** ** [get_subhash] *)

Definition idx : list Z := [14; 3; 6; 8; 2].
Definition mul : list Z := [2; 2; 5; 4; 3].
Definition add : list Z := [0; 13; 16; 11; 5].

(** One iteration of the loop body for the loop variable [i]: the
    character appended to [b]. *)
Definition get_subhash_step (hash : string) (i : nat) : result string :=
  a ← Py.list_getitem add i;
  m ← Py.list_getitem mul i;
  i ← Py.list_getitem idx i;
  c ← Py.str_getitem hash i;
  d ← Py.int16 c;
  let t := a + d in
  v ← Py.int16 (Py.str_slice hash t (t + 2));
  Py.str_getitem (Py.format_x (v * m)) (-1).

Fixpoint get_subhash_loop (hash : string) (range : list nat) (b : list string)
  : result (list string) :=
  match range with
  | [] => Ok b
  | i :: range' =>
      c ← get_subhash_step hash i;
      get_subhash_loop hash range' (b ++ [c])
  end.

Definition get_subhash (hash : string) : result string :=
  b ← get_subhash_loop hash (seq 0 (length idx)) [];
  Ok (Py.join b).

(** ** Text and byte helpers *)

#[global] Instance byte_eq_dec : EqDecision byte := Byte.byte_eq_dec.

Definition LF : ascii := "010"%char.

(** [s.encode("utf-8")] on code points below 256: one byte below 128,
    two bytes from 128 on. *)
Definition utf8_char (c : ascii) : list byte :=
  let n := nat_of_ascii c in
  if (n <? 128)%nat then [byte_of_ascii c]
  else [byte_of_ascii (ascii_of_nat (192 + n / 64));
        byte_of_ascii (ascii_of_nat (128 + n mod 64))].

Fixpoint encode_utf8 (s : string) : list byte :=
  match s with
  | EmptyString => []
  | String c s' => utf8_char c ++ encode_utf8 s'
  end.

(** [s.upper()] on the ASCII letters a language code is made of. *)
Definition upper_char (c : ascii) : ascii :=
  let n := nat_of_ascii c in
  if ((97 <=? n) && (n <=? 122))%nat then ascii_of_nat (n - 32) else c.

Fixpoint upper (s : string) : string :=
  match s with
  | EmptyString => EmptyString
  | String c s' => String (upper_char c) (upper s')
  end.

(** ** The two substitutions of the [content] setter *)

(** What the group of the first pattern (a dot under a star) captures
    at the head of [s], and what it leaves: without the DOTALL flag the
    dot matches every character but the line feed, and the star is
    greedy. *)
Fixpoint dot_star (s : string) : string * string :=
  match s with
  | EmptyString => (EmptyString, EmptyString)
  | String c s' =>
      if Ascii.eqb c LF then (EmptyString, s)
      else let '(g, rest) := dot_star s' in (String c g, rest)
  end.

(** The first [re.sub] of the setter.  The pattern is a caret, an
    escaped slash and the group; no flag is passed, so the caret matches
    at the start of the string only and at most one match exists.  The
    replacement template is the opening tag, a reference to group 1 and
    the closing tag written with a backslash before its slash: in a
    template a backslash followed by a character that is neither a
    letter nor a digit stays as it is, both characters. *)
Definition sub_italic (s : string) : string :=
  match s with
  | String "/" s' =>
      let '(g1, rest) := dot_star s' in
      "<i>" +:+ g1 +:+ "<\/i>" +:+ rest
  | _ => s
  end.

(** The second [re.sub] of the setter: every backslash followed by the
    letter r is deleted, scanning from the left. *)
Fixpoint sub_backslash_r (s : string) : string :=
  match s with
  | String "\" (String "r" s') => sub_backslash_r s'
  | String c s' => String c (sub_backslash_r s')
  | EmptyString => EmptyString
  end.

Definition normalize (content_str : string) : string :=
  sub_backslash_r (sub_italic content_str).

(** ** Languages, videos, subtitles *)

(** A babelfish language: the [alpha2] attribute is a conversion that
    raises for a language without a two-letter code. *)
Record Language : Type := {
  alpha3 : string;
  alpha2 : result string
}.

(** The part of a video this provider reads: its mapping from hash
    scheme to hash value. *)
Record Video : Type := {
  hashes : gmap string string
}.

(** Modelled from the spec: the base class [Subtitle] lives in
    [subliminal/subtitle.py], outside these sources.  Of it the record
    keeps the [language] field, which the base constructor sets from its
    argument and which the specification calls immutable once set; the
    fields this provider never reads or writes are left out.  [hash] and
    [_content] are the fields the class itself adds. *)
Record NapiProjektSubtitle : Type := {
  language : Language;
  hash : string;
  _content : option (list byte)
}.

Definition provider_name : string := "napiprojekt".

(** [NapiProjektSubtitle.__init__] *)
Definition NapiProjektSubtitle_init (language : Language) (hash : string)
  : NapiProjektSubtitle :=
  {| language := language; hash := hash; _content := None |}.

Definition id (self : NapiProjektSubtitle) : string := hash self.
Definition info (self : NapiProjektSubtitle) : string := hash self.

Definition get_matches (self : NapiProjektSubtitle) (video : Video)
  : gset string :=
  let matches : gset string := ∅ in
  match hashes video !! "napiprojekt" with
  | Some h => if decide (h = hash self) then matches ∪ {["hash"]} else matches
  | None => matches
  end.

(** The [content] getter. *)
Definition content (self : NapiProjektSubtitle) : option (list byte) :=
  _content self.

(** ** The HTTP world *)

Record Session : Type := {
  headers : gmap string string
}.

Record Request : Type := {
  req_url : string;
  req_params : list (string * string);
  req_headers : gmap string string;
  req_timeout : Z
}.

Record Response : Type := {
  status_code : Z;
  resp_content : list byte
}.

(** The world a provider acts on is the sequence of requests sent so
    far. *)
Definition World : Type := list Request.

Definition M (A : Type) : Type := World → result A * World.

#[global] Instance M_ret : MRet M := λ A a w, (Ok a, w).
#[global] Instance M_bind : MBind M := λ A B f m w,
  match m w with
  | (Ok a, w') => f a w'
  | (Raise e, w') => (Raise e, w')
  end.

Definition lift {A} (r : result A) : M A := λ w, (r, w).

(** [Response.raise_for_status] *)
Definition raise_for_status (r : Response) : result unit :=
  if (400 <=? status_code r) && (status_code r <? 600) then Raise HTTPError
  else Ok tt.

Record NapiProjektProvider : Type := {
  session : option Session
}.

Definition required_hash : string := "napiprojekt".
Definition server_url : string := "http://napiprojekt.pl/unit_napisy/dl.php".
Definition NPc0 : list byte := ["N"; "P"; "c"; "0"]%byte.

(** [NapiProjektProvider.__init__] *)
Definition NapiProjektProvider_init : NapiProjektProvider :=
  {| session := None |}.

(** ** External collaborators *)

(** What the provider consumes from outside this module. *)
Record Collaborators : Type := {
  (** the remote service and the transport: the outcome of one GET, which
      may depend on everything sent before *)
  remote : list Request → Request → result Response;
  (** charset detection: the best guess of the text, or nothing when no
      encoding fits *)
  from_bytes_best : list byte → option string;
  (** the transcoder: from the bytes of the input file to the text read
      back from the output file, or the exception of the step that
      failed *)
  ffmpeg_run : list byte → result string;
  (** the headers of a fresh session *)
  default_headers : gmap string string;
  (** the user agent every provider announces *)
  user_agent : string
}.

(** [str(x)] on the best guess: the decoded text, or the name of
    [None]. *)
Definition str_of_best (m : option string) : string :=
  match m with
  | Some s => s
  | None => "None"
  end.

(** The [content] setter: the exception raised, if any, and the record
    afterwards. *)
Definition set_content (env : Collaborators) (self : NapiProjektSubtitle)
    (content : option (list byte)) : result unit * NapiProjektSubtitle :=
  match content with
  | None => (Ok tt, self)
  | Some content =>
      let content := encode_utf8 (str_of_best (from_bytes_best env content)) in
      match ffmpeg_run env content with
      | Raise e => (Raise e, self)
      | Ok content_str =>
          let content_str := sub_italic content_str in
          let content_str := sub_backslash_r content_str in
          (Ok tt, {| language := language self;
                     hash := hash self;
                     _content := Some (encode_utf8 content_str) |})
      end
  end.

Definition initialize (env : Collaborators) (self : NapiProjektProvider)
  : NapiProjektProvider :=
  {| session :=
       Some {| headers := <["User-Agent" := user_agent env]> (default_headers env) |} |}.

Definition terminate (self : NapiProjektProvider) : result NapiProjektProvider :=
  match session self with
  | Some _ => Ok self
  | None => Raise AttributeError
  end.

(** [session.get(url, params=params, timeout=timeout)]: the request is
    recorded and the remote side decides the outcome. *)
Definition Session_get (env : Collaborators) (s : Session) (url : string)
    (params : list (string * string)) (timeout : Z) : M Response :=
  λ w,
    let req := {| req_url := url; req_params := params;
                  req_headers := headers s; req_timeout := timeout |} in
    (remote env w req, w ++ [req]).

Definition query_params (l hash t : string) : list (string * string) :=
  [("v", "dreambox"); ("kolejka", "false"); ("nick", ""); ("pass", "");
   ("napios", "Linux"); ("l", l); ("f", hash); ("t", t)].

Definition query (env : Collaborators) (self : NapiProjektProvider)
    (language : Language) (hash : string) : M (option NapiProjektSubtitle) :=
  l ← lift (alpha2 language);
  t ← lift (get_subhash hash);
  let params := query_params (upper l) hash t in
  s ← lift (match session self with
            | Some s => Ok s
            | None => Raise AttributeError
            end);
  r ← Session_get env s server_url params 10;
  _ ← lift (raise_for_status r);
  if decide (take 4 (resp_content r) = NPc0) then mret None
  else
    let subtitle := NapiProjektSubtitle_init language hash in
    let '(raised, subtitle) := set_content env subtitle (Some (resp_content r)) in
    _ ← lift raised;
    mret (Some subtitle).

(** [d[k]] on a dictionary. *)
Definition dict_getitem (d : gmap string string) (k : string) : result string :=
  match d !! k with
  | Some v => Ok v
  | None => Raise KeyError
  end.

(** The inner comprehension of [list_subtitles]: for each language the
    hash is looked up and [query] is called. *)
Fixpoint list_subtitles_queries (env : Collaborators) (self : NapiProjektProvider)
    (video : Video) (languages : list Language)
  : M (list (option NapiProjektSubtitle)) :=
  match languages with
  | [] => mret []
  | l :: languages' =>
      h ← lift (dict_getitem (hashes video) "napiprojekt");
      s ← query env self l h;
      ss ← list_subtitles_queries env self video languages';
      mret (s :: ss)
  end.

(** The outer comprehension: the results that are not [None]. *)
Fixpoint not_None {A} (l : list (option A)) : list A :=
  match l with
  | [] => []
  | Some s :: l' => s :: not_None l'
  | None :: l' => not_None l'
  end.

Definition list_subtitles (env : Collaborators) (self : NapiProjektProvider)
    (video : Video) (languages : list Language) : M (list NapiProjektSubtitle) :=
  ss ← list_subtitles_queries env self video languages;
  mret (not_None ss).

Definition download_subtitle (self : NapiProjektProvider)
    (subtitle : NapiProjektSubtitle) : M unit :=
  mret tt.

(** ** The operations on a subtitle record *)

(** What a caller can do with a record once it is constructed. *)
Inductive SubtitleOp : Type :=
| OpSetContent (content : option (list byte))
| OpGetContent
| OpGetMatches (video : Video)
| OpId
| OpInfo.

(** The record after an operation: only the setter writes. *)
Definition run_op (env : Collaborators) (self : NapiProjektSubtitle)
    (op : SubtitleOp) : NapiProjektSubtitle :=
  match op with
  | OpSetContent c => (set_content env self c).2
  | OpGetContent | OpGetMatches _ | OpId | OpInfo => self
  end.

Definition run_ops (env : Collaborators) (self : NapiProjektSubtitle)
    (ops : list SubtitleOp) : NapiProjektSubtitle :=
  foldl (run_op env) self ops.

(** ** The hash derivation as the specification words it *)

Module Spec.

Definition indices : list Z := [14; 3; 6; 8; 2].
Definition multipliers : list Z := [2; 2; 5; 4; 3].
Definition offsets : list Z := [0; 13; 16; 11; 5].

(** The character at a 0-based position. *)
Definition char_at (h : string) (p : Z) : option ascii :=
  if p <? 0 then None else String.get (Z.to_nat p) h.

Fixpoint position (c : ascii) (digits : string) (k : Z) : option Z :=
  match digits with
  | EmptyString => None
  | String d digits' => if Ascii.eqb c d then Some k else position c digits' (k + 1)
  end.

(** A hex digit read as an integer in [0,15]. *)
Definition digit_value (c : ascii) : option Z :=
  match position c "0123456789abcdef" 0 with
  | Some d => Some d
  | None => position c "0123456789ABCDEF" 0
  end.

Definition digit_at (h : string) (p : Z) : option Z :=
  char_at h p ≫= digit_value.

(** The preconditions for one step: the digit at [idx] is a hex digit,
    and with [t] computed from it the positions [t] and [t + 1] are
    within bounds and hold hex digits. *)
Definition step_defined (h : string) (idx add : Z) : bool :=
  match digit_at h idx with
  | Some digitVal =>
      let t := add + digitVal in
      bool_decide (is_Some (digit_at h t)) && bool_decide (is_Some (digit_at h (t + 1)))
  | None => false
  end.

Definition well_formed (h : string) : bool :=
  forallb (λ '(idx, add), step_defined h idx add) (zip indices offsets).

(** Lowercase hexadecimal digits of a natural number, most significant
    first. *)
Fixpoint lower_hex_digits (fuel : nat) (n : Z) (acc : list ascii) : list ascii :=
  match fuel with
  | O => acc
  | S fuel' =>
      let acc' := default "0"%char (String.get (Z.to_nat (n mod 16)) "0123456789abcdef") :: acc in
      if n / 16 =? 0 then acc' else lower_hex_digits fuel' (n / 16) acc'
  end.

Definition lower_hex (n : Z) : list ascii :=
  lower_hex_digits (S (Z.to_nat n)) n [].

(** Steps 1 to 5 for one table entry: the character contributed. *)
Definition step (h : string) (idx mul add : Z) : ascii :=
  let digitVal := default 0 (digit_at h idx) in
  let t := add + digitVal in
  let v := 16 * default 0 (digit_at h t) + default 0 (digit_at h (t + 1)) in
  List.last (lower_hex (v * mul)) "0"%char.

Definition deriveSubHash (h : string) : string :=
  string_of_list_ascii
    (map (λ '(idx, mul, add), step h idx mul add)
         (zip (zip indices multipliers) offsets)).

End Spec.

(** ** Notions the statements about the provider use *)

(** The request [query] sends for a language and a hash, when its
    parameters can be built and a session exists. *)
Definition query_request (self : NapiProjektProvider) (lang : Language)
    (h : string) : result Request :=
  l ← alpha2 lang;
  t ← get_subhash h;
  s ← match session self with
      | Some s => Ok s
      | None => Raise AttributeError
      end;
  Ok {| req_url := server_url; req_params := query_params (upper l) h t;
        req_headers := headers s; req_timeout := 10 |}.

(** The request of [query] is sent in world [w] and answered by the
    response [r], whose status is not an error status. *)
Definition answered (env : Collaborators) (self : NapiProjektProvider)
    (lang : Language) (h : string) (w : World) (r : Response) : Prop :=
  ∃ req, query_request self lang h = Ok req ∧
         remote env w req = Ok r ∧ raise_for_status r = Ok tt.

(** What the transcoder is given for a raw payload. *)
Definition transcoder_input (env : Collaborators) (body : list byte) : list byte :=
  encode_utf8 (str_of_best (from_bytes_best env body)).

(** The record a hit yields when the transcoder returns [text]. *)
Definition derived_record (lang : Language) (h : string) (text : string)
  : NapiProjektSubtitle :=
  {| language := lang; hash := h;
     _content := Some (encode_utf8 (normalize text)) |}.

(** The outcome of [query] on a body that is not the sentinel. *)
Definition hit (env : Collaborators) (lang : Language) (h : string)
    (body : list byte) : result (option NapiProjektSubtitle) :=
  match ffmpeg_run env (transcoder_input env body) with
  | Ok text => Ok (Some (derived_record lang h text))
  | Raise e => Raise e
  end.

(** [query] is run once for each language of the list, in order, each
    time with the hash [h], each run starting in the world the previous
    one left; no run raises. *)
Inductive queries_run (env : Collaborators) (self : NapiProjektProvider)
    (h : string)
  : list Language → World → list (option NapiProjektSubtitle) → World → Prop :=
| queries_run_nil w : queries_run env self h [] w [] w
| queries_run_cons l ls w r w1 rs w2 :
    query env self l h w = (Ok r, w1) →
    queries_run env self h ls w1 rs w2 →
    queries_run env self h (l :: ls) w (r :: rs) w2.

(** ** Every character, for facts checked by enumeration *)

Definition all_ascii : list ascii := map ascii_of_nat (seq 0 256).

#[global] Instance exn_eq_dec : EqDecision exn.
Proof. solve_decision. Defined.

#[global] Instance result_eq_dec {A} `{EqDecision A} : EqDecision (result A).
Proof. solve_decision. Defined.

Definition digit_agrees (c : ascii) : bool :=
  bool_decide (Py.hexval c = Spec.digit_value c) &&
  match Py.hexval c with
  | Some d => (0 <=? d) && (d <? 16) &&
              bool_decide (Py.int16 (String c EmptyString) = Ok d)
  | None => true
  end.

Definition two_digits_agree (c1 c2 : ascii) : bool :=
  match Py.hexval c1, Py.hexval c2 with
  | Some d1, Some d2 =>
      bool_decide (Py.int16 (String c1 (String c2 EmptyString)) = Ok (16 * d1 + d2))
  | _, _ => true
  end.

(** The number a string of hexadecimal digits denotes, most significant
    digit first, continuing from [acc]. *)
Fixpoint digits_value (s : string) (acc : Z) : Z :=
  match s with
  | EmptyString => acc
  | String c s' => digits_value s' (16 * acc + default 0 (Py.hexval c))
  end.

(** ** Sample values *)

Definition polish : Language := {| alpha3 := "pol"; alpha2 := Ok "pl" |}.
Definition english : Language := {| alpha3 := "eng"; alpha2 := Ok "en" |}.
Definition french : Language := {| alpha3 := "fra"; alpha2 := Ok "fr" |}.

Definition sample_hash : string := "0123456789abcdef0123456789abcdef".

Definition sample_video : Video :=
  {| hashes := {[ "napiprojekt" := sample_hash ]} |}.

Definition param (k : string) (req : Request) : option string :=
  snd <$> List.find (λ kv, String.eqb kv.1 k) (req_params req).

(** A service that has a subtitle for Polish only and answers every
    other language with the sentinel; a transcoder that puts the text it
    is given into one cue. *)
Definition sample_env (body : list byte) : Collaborators :=
  {| remote := λ _ req,
       if bool_decide (param "l" req = Some "PL")
       then Ok {| status_code := 200; resp_content := body |}
       else Ok {| status_code := 200;
                  resp_content := NPc0 ++ list_byte_of_string " no subtitles" |};
     from_bytes_best := λ b, Some (string_of_list_byte b);
     ffmpeg_run := λ b,
       Ok ("1" +:+ String LF ("00:00:00,000 --> 00:00:01,000" +:+
            String LF (string_of_list_byte b)));
     default_headers := ∅;
     user_agent := "Subliminal/2.1" |}.

Definition sample_body : list byte := list_byte_of_string "{1}{25}/hello".

(** One cue as the transcoder writes it, its text beginning with a
    slash. *)
Definition sample_cue : string :=
  "1" +:+ String LF ("00:00:00,041 --> 00:00:01,042" +:+
    String LF ("/hello" +:+ String LF EmptyString)).

Definition sample_provider (body : list byte) : NapiProjektProvider :=
  initialize (sample_env body) NapiProjektProvider_init.

(** ** Notions the further properties use *)

Fixpoint string_forallb (P : ascii → bool) (s : string) : bool :=
  match s with
  | EmptyString => true
  | String c s' => P c && string_forallb P s'
  end.

(** A digit, or a letter from a to f. *)
Definition is_lower_hex (c : ascii) : bool :=
  let n := nat_of_ascii c in
  ((48 <=? n) && (n <=? 57) || (97 <=? n) && (n <=? 102))%nat.

Definition is_hex (c : ascii) : bool :=
  match Py.hexval c with
  | Some _ => true
  | None => false
  end.

(** Every character is a hexadecimal digit, of either case. *)
Definition all_hex (s : string) : bool := string_forallb is_hex s.

(** What one step appends is one lowercase hexadecimal digit. *)
Definition one_lower_hex (c : string) : Prop :=
  ∃ a, c = String a EmptyString ∧ is_lower_hex a = true.

(** A single character converts exactly when it is a hexadecimal
    digit, and the digits printed are lowercase. *)
Definition single_char_agrees (c : ascii) : bool :=
  match Py.hexval c with
  | Some d => is_lower_hex (Py.hex_digit d)
  | None => bool_decide (Py.int16 (String c EmptyString) = Raise ValueError)
  end.

(** The two stages of [Py.int16] after the leading white space, named
    so that facts can be stated about each: the sign, and the digits
    with their prefix. *)
Definition split_sign (s : string) : Z * string :=
  match s with
  | String "+" s' => (1, s')
  | String "-" s' => (-1, s')
  | _ => (1, s)
  end.

Definition int16_after_sign (sign : Z) (s : string) : result Z :=
  let s := Py.skip_prefix s in
  match s with
  | String "_" _ => Raise ValueError
  | _ =>
      match Py.scan_digits s false 0 0 with
      | None => Raise ValueError
      | Some (_, O, _) => Raise ValueError
      | Some (v, S _, rest) =>
          match Py.lstrip rest with
          | EmptyString => Ok (sign * v)
          | String _ _ => Raise ValueError
          end
      end
  end.

(** Every test the integer parser makes on a character gives the same
    answer on its capital. *)
Definition upper_char_agrees (c : ascii) : bool :=
  let u := upper_char c in
  bool_decide (Py.is_space u = Py.is_space c) &&
  bool_decide (Py.hexval u = Py.hexval c) &&
  bool_decide (Py.is_underscore u = Py.is_underscore c) &&
  bool_decide (Ascii.eqb u "+" = Ascii.eqb c "+") &&
  bool_decide (Ascii.eqb u "-" = Ascii.eqb c "-") &&
  bool_decide (Ascii.eqb u "0" = Ascii.eqb c "0") &&
  bool_decide (Ascii.eqb u "_" = Ascii.eqb c "_") &&
  bool_decide (Ascii.eqb u "x" || Ascii.eqb u "X" = Ascii.eqb c "x" || Ascii.eqb c "X").

(** A service that gives every request the [outcome], and a transcoder
    that gives every input the result [transcoded]. *)
Definition constant_env (outcome : result Response) (transcoded : result string)
  : Collaborators :=
  {| remote := λ _ _, outcome;
     from_bytes_best := λ b, Some (string_of_list_byte b);
     ffmpeg_run := λ _, transcoded;
     default_headers := {[ "User-Agent" := "python-requests/2.31" ]};
     user_agent := "Subliminal/2.1" |}.

(** No character of the string is [c]. *)
Definition without (c : ascii) (s : string) : bool :=
  string_forallb (λ a, negb (Ascii.eqb a c)) s.

(** A service that answers a request for Polish with the [outcome] and
    every other language with the sentinel. *)
Definition polish_outcome_env (outcome : result Response) : Collaborators :=
  {| remote := λ _ req,
       if bool_decide (param "l" req = Some "PL") then outcome
       else Ok {| status_code := 200; resp_content := NPc0 |};
     from_bytes_best := λ b, Some (string_of_list_byte b);
     ffmpeg_run := λ b, Ok (string_of_list_byte b);
     default_headers := ∅;
     user_agent := "Subliminal/2.1" |}.

(** * Facts about the primitives *)

Lemma get_lt s n c : String.get n s = Some c → (n < String.length s)%nat.
Proof.
  revert n; induction s as [|a s IH]; intros [|n] H; simpl in *; try discriminate.
  - lia.
  - apply IH in H. lia.
Qed.

Lemma length_app s1 s2 :
  String.length (s1 +:+ s2) = (String.length s1 + String.length s2)%nat.
Proof. induction s1 as [|a s1 IH]; simpl; [done | by rewrite IH]. Qed.

Lemma get_snoc s c : String.get (String.length s) (s +:+ String c EmptyString) = Some c.
Proof. induction s as [|a s IH]; simpl; [done | exact IH]. Qed.

Lemma substring_two s n c1 c2 :
  String.get n s = Some c1 → String.get (S n) s = Some c2 →
  String.substring n 2 s = String c1 (String c2 EmptyString).
Proof.
  revert n; induction s as [|a s IH]; intros [|n] H1 H2; simpl in *; try discriminate.
  - destruct s as [|b s]; simpl in *; [discriminate|].
    inversion H1; inversion H2; subst. by destruct s.
  - by apply IH.
Qed.

Lemma str_getitem_get s i c :
  0 ≤ i → String.get (Z.to_nat i) s = Some c →
  Py.str_getitem s i = Ok (String c EmptyString).
Proof.
  intros Hi Hget. unfold Py.str_getitem, Py.len.
  pose proof (get_lt _ _ _ Hget) as Hlt.
  assert (E1 : (i <? 0) = false) by (apply Z.ltb_ge; lia).
  assert (E2 : (Z.of_nat (String.length s) <=? i) = false) by (apply Z.leb_gt; lia).
  cbv zeta. rewrite E1. cbv iota. rewrite E1, E2. cbn [orb]. by rewrite Hget.
Qed.

Lemma str_getitem_last s c :
  Py.str_getitem (s +:+ String c EmptyString) (-1) = Ok (String c EmptyString).
Proof.
  unfold Py.str_getitem, Py.len. rewrite length_app. simpl String.length.
  change (-1 <? 0) with true. cbv iota.
  replace (-1 + Z.of_nat (String.length s + 1)) with (Z.of_nat (String.length s)) by lia.
  assert (E1 : (Z.of_nat (String.length s) <? 0) = false) by (apply Z.ltb_ge; lia).
  assert (E2 : (Z.of_nat (String.length s + 1) <=? Z.of_nat (String.length s)) = false)
    by (apply Z.leb_gt; lia).
  rewrite E1, E2. cbn [orb]. by rewrite Nat2Z.id, get_snoc.
Qed.

Lemma str_slice_two s t c1 c2 :
  0 ≤ t → String.get (Z.to_nat t) s = Some c1 →
  String.get (Z.to_nat (t + 1)) s = Some c2 →
  Py.str_slice s t (t + 2) = String c1 (String c2 EmptyString).
Proof.
  intros Ht H1 H2. unfold Py.str_slice, Py.clamp, Py.len.
  pose proof (get_lt _ _ _ H2) as Hlt.
  assert (E1 : (t <? 0) = false) by (apply Z.ltb_ge; lia).
  assert (E2 : (t + 2 <? 0) = false) by (apply Z.ltb_ge; lia).
  assert (E3 : (t + 2 <=? t) = false) by (apply Z.leb_gt; lia).
  rewrite E1, E2. rewrite (Z.min_l t) by lia. rewrite (Z.min_l (t + 2)) by lia.
  rewrite E3.
  replace (Z.to_nat (t + 2 - t)) with 2%nat by lia.
  apply substring_two; [done|].
  by replace (S (Z.to_nat t)) with (Z.to_nat (t + 1)) by lia.
Qed.

(** ** The primitives on sample inputs *)

Example int16_samples :
  Py.int16 "ef" = Ok 239 ∧ Py.int16 "Ff" = Ok 255 ∧ Py.int16 "7" = Ok 7 ∧
  Py.int16 " a" = Ok 10 ∧ Py.int16 "a " = Ok 10 ∧ Py.int16 "-a" = Ok (-10) ∧
  Py.int16 "0x1F" = Ok 31 ∧ Py.int16 "1_f" = Ok 31 ∧
  Py.int16 EmptyString = Raise ValueError ∧ Py.int16 "0x" = Raise ValueError ∧
  Py.int16 "1__f" = Raise ValueError ∧ Py.int16 "_f" = Raise ValueError ∧
  Py.int16 "f_" = Raise ValueError ∧ Py.int16 "fg" = Raise ValueError.
Proof. repeat split; reflexivity. Qed.

Example format_x_samples :
  Py.format_x 478 = "1de" ∧ Py.format_x 0 = "0" ∧ Py.format_x 1275 = "4fb" ∧
  Py.format_x (-478) = "-1de".
Proof. repeat split; reflexivity. Qed.

Example str_slice_samples :
  Py.str_slice "abcdef" 4 6 = "ef" ∧ Py.str_slice "abcdef" 5 7 = "f" ∧
  Py.str_slice "abcdef" 6 8 = EmptyString ∧ Py.str_slice "abcdef" (-2) 8 = "ef".
Proof. repeat split; reflexivity. Qed.

Example str_getitem_samples :
  Py.str_getitem "abcdef" 2 = Ok "c" ∧ Py.str_getitem "abcdef" (-1) = Ok "f" ∧
  Py.str_getitem "abcdef" 6 = Raise IndexError ∧
  Py.str_getitem "abcdef" (-7) = Raise IndexError.
Proof. repeat split; reflexivity. Qed.

(** ** Facts checked on every character *)

Lemma all_ascii_complete c : In c all_ascii.
Proof.
  rewrite <- (ascii_nat_embedding c). apply in_map, in_seq.
  pose proof (nat_ascii_bounded c). lia.
Qed.

Lemma forall_ascii (P : ascii → bool) :
  forallb P all_ascii = true → ∀ c, P c = true.
Proof. intros H c. eapply forallb_forall in H; [exact H | apply all_ascii_complete]. Qed.

Lemma digit_agrees_all : forallb digit_agrees all_ascii = true.
Proof. vm_compute. reflexivity. Qed.

Lemma two_digits_agree_all :
  forallb (λ c1, forallb (two_digits_agree c1) all_ascii) all_ascii = true.
Proof. vm_compute. reflexivity. Qed.

Lemma hexval_digit_value c : Py.hexval c = Spec.digit_value c.
Proof.
  pose proof (forall_ascii _ digit_agrees_all c) as H.
  unfold digit_agrees in H. apply andb_true_iff in H as [H _].
  by apply bool_decide_eq_true in H.
Qed.

Lemma hexval_range c d : Py.hexval c = Some d → 0 ≤ d < 16.
Proof.
  intros Hc. pose proof (forall_ascii _ digit_agrees_all c) as H.
  unfold digit_agrees in H. rewrite Hc in H.
  apply andb_true_iff in H as [_ H]. apply andb_true_iff in H as [H _]. lia.
Qed.

Lemma int16_digit c d :
  Py.hexval c = Some d → Py.int16 (String c EmptyString) = Ok d.
Proof.
  intros Hc. pose proof (forall_ascii _ digit_agrees_all c) as H.
  unfold digit_agrees in H. rewrite Hc in H.
  apply andb_true_iff in H as [_ H]. apply andb_true_iff in H as [_ H].
  by apply bool_decide_eq_true in H.
Qed.

Lemma int16_two_digits c1 c2 d1 d2 :
  Py.hexval c1 = Some d1 → Py.hexval c2 = Some d2 →
  Py.int16 (String c1 (String c2 EmptyString)) = Ok (16 * d1 + d2).
Proof.
  intros H1 H2. pose proof (forall_ascii _ two_digits_agree_all c1) as H.
  cbv beta in H. pose proof (forall_ascii _ H c2) as H'.
  unfold two_digits_agree in H'. rewrite H1, H2 in H'.
  by apply bool_decide_eq_true in H'.
Qed.

(** ** The last hexadecimal digit *)

Lemma hex_of_snoc fuel n :
  0 ≤ n →
  ∃ p, Py.hex_of (S fuel) n = p +:+ String (Py.hex_digit (n mod 16)) EmptyString.
Proof.
  intros Hn. simpl. destruct (n <? 16) eqn:E.
  - exists EmptyString. rewrite Z.mod_small by lia. reflexivity.
  - eexists. reflexivity.
Qed.

Lemma format_x_last n :
  0 ≤ n →
  Py.str_getitem (Py.format_x n) (-1) = Ok (String (Py.hex_digit (n mod 16)) EmptyString).
Proof.
  intros Hn. unfold Py.format_x.
  assert (E : (n <? 0) = false) by (apply Z.ltb_ge; lia). rewrite E.
  destruct (hex_of_snoc (Z.to_nat (Z.log2 n)) n Hn) as [p ->].
  apply str_getitem_last.
Qed.

Lemma lower_hex_digits_acc fuel n acc :
  ∃ p, Spec.lower_hex_digits fuel n acc = p ++ acc.
Proof.
  revert n acc; induction fuel as [|fuel IH]; intros n acc; simpl.
  - by exists [].
  - destruct (n / 16 =? 0).
    + by eexists [_].
    + edestruct IH as [p ->]. exists (p ++ [Py.hex_digit (n mod 16)]).
      by rewrite <- app_assoc.
Qed.

Lemma lower_hex_last n d :
  List.last (Spec.lower_hex n) d = Py.hex_digit (n mod 16).
Proof.
  unfold Spec.lower_hex. simpl. destruct (n / 16 =? 0); [done|].
  edestruct lower_hex_digits_acc as [p ->]. apply last_last.
Qed.

(** ** The digits printed denote the number *)

Lemma digits_value_app s1 s2 acc :
  digits_value (s1 +:+ s2) acc = digits_value s2 (digits_value s1 acc).
Proof. revert acc; induction s1 as [|c s1 IH]; intros acc; simpl; [done | apply IH]. Qed.

Lemma hexval_hex_digit d : 0 ≤ d < 16 → Py.hexval (Py.hex_digit d) = Some d.
Proof.
  intros Hd.
  assert (Hcases : d = 0 ∨ d = 1 ∨ d = 2 ∨ d = 3 ∨ d = 4 ∨ d = 5 ∨ d = 6 ∨ d = 7 ∨
                   d = 8 ∨ d = 9 ∨ d = 10 ∨ d = 11 ∨ d = 12 ∨ d = 13 ∨ d = 14 ∨ d = 15)
    by lia.
  repeat (destruct Hcases as [->|Hcases]; [reflexivity|]). by subst.
Qed.

Lemma hex_of_value fuel : ∀ n,
  0 ≤ n < 16 ^ Z.of_nat fuel → digits_value (Py.hex_of fuel n) 0 = n.
Proof.
  induction fuel as [|fuel IH]; intros n Hn.
  - simpl in *. lia.
  - cbn [Py.hex_of]. destruct (n <? 16) eqn:E.
    + simpl. rewrite hexval_hex_digit by lia. simpl. lia.
    + rewrite digits_value_app, IH.
      * simpl. rewrite hexval_hex_digit by (apply Z.mod_pos_bound; lia).
        simpl. pose proof (Z.div_mod n 16). lia.
      * rewrite Nat2Z.inj_succ, Z.pow_succ_r in Hn by lia.
        split; [apply Z.div_pos; lia | apply Z.div_lt_upper_bound; lia].
Qed.

Lemma format_x_value n : 0 ≤ n → digits_value (Py.format_x n) 0 = n.
Proof.
  intros Hn. unfold Py.format_x.
  assert (E : (n <? 0) = false) by (apply Z.ltb_ge; lia). rewrite E.
  apply hex_of_value. split; [done|].
  rewrite Nat2Z.inj_succ, Z2Nat.id by apply Z.log2_nonneg.
  destruct (Z.eq_dec n 0) as [->|Hne]; [done|].
  pose proof (Z.log2_spec n ltac:(lia)) as [_ Hlt].
  eapply Z.lt_le_trans; [exact Hlt|].
  apply Z.pow_le_mono_l. lia.
Qed.

(** ** One step of the loop against one step of the specification *)

Lemma digit_at_get h p d :
  Spec.digit_at h p = Some d →
  0 ≤ p ∧ ∃ c, String.get (Z.to_nat p) h = Some c ∧ Py.hexval c = Some d.
Proof.
  unfold Spec.digit_at, Spec.char_at. destruct (p <? 0) eqn:E; [done|].
  destruct (String.get (Z.to_nat p) h) as [c|] eqn:G; [|done].
  simpl. intros Hd. split; [lia|]. exists c. by rewrite hexval_digit_value.
Qed.

Lemma get_subhash_step_refines hash k i m a :
  idx !! k = Some i → mul !! k = Some m → add !! k = Some a →
  0 ≤ a → 0 ≤ m →
  Spec.step_defined hash i a = true →
  get_subhash_step hash k = Ok (String (Spec.step hash i m a) EmptyString).
Proof.
  intros Hi Hm Ha Ha0 Hm0 Hdef.
  unfold Spec.step_defined in Hdef.
  destruct (Spec.digit_at hash i) as [d|] eqn:Hd; [|done].
  apply andb_true_iff in Hdef as [H1 H2].
  apply bool_decide_eq_true in H1 as [d1 Hd1].
  apply bool_decide_eq_true in H2 as [d2 Hd2].
  unfold Spec.step. rewrite lower_hex_last.
  rewrite Hd. change (default 0 (Some d)) with d.
  rewrite Hd1, Hd2. change (default 0 (Some d1)) with d1.
  change (default 0 (Some d2)) with d2.
  apply digit_at_get in Hd as (Hi0 & c & Hc & Hcv).
  apply digit_at_get in Hd1 as (Ht0 & c1 & Hc1 & Hcv1).
  apply digit_at_get in Hd2 as (_ & c2 & Hc2 & Hcv2).
  pose proof (hexval_range _ _ Hcv1). pose proof (hexval_range _ _ Hcv2).
  unfold get_subhash_step, Py.list_getitem. rewrite Ha, Hm, Hi. simpl.
  rewrite (str_getitem_get _ _ _ Hi0 Hc). simpl.
  rewrite (int16_digit _ _ Hcv). simpl.
  rewrite (str_slice_two _ _ _ _ Ht0 Hc1 Hc2).
  rewrite (int16_two_digits _ _ _ _ Hcv1 Hcv2). simpl.
  apply format_x_last. nia.
Qed.

(** ** The whole loop *)

Lemma well_formed_steps hash :
  Spec.well_formed hash = true →
  Spec.step_defined hash 14 0 = true ∧ Spec.step_defined hash 3 13 = true ∧
  Spec.step_defined hash 6 16 = true ∧ Spec.step_defined hash 8 11 = true ∧
  Spec.step_defined hash 2 5 = true.
Proof.
  unfold Spec.well_formed. cbn [zip zip_with Spec.indices Spec.offsets forallb].
  rewrite !andb_true_iff. tauto.
Qed.

(** Runs iteration [k] of the loop, whose table entries are [i], [m]
    and [a]. *)
Ltac loop_step hash k i m a :=
  rewrite (get_subhash_step_refines hash k i m a) by (done || lia);
  cbn [mbind result_bind app].

Lemma get_subhash_loop_refines hash :
  Spec.well_formed hash = true →
  get_subhash_loop hash (seq 0 (length idx)) [] =
  Ok (map (λ '(i, m, a), String (Spec.step hash i m a) EmptyString)
          (zip (zip Spec.indices Spec.multipliers) Spec.offsets)).
Proof.
  intros (H0 & H1 & H2 & H3 & H4)%well_formed_steps.
  change (seq 0 (length idx)) with [0; 1; 2; 3; 4]%nat.
  cbn [get_subhash_loop].
  loop_step hash 0%nat 14 2 0. loop_step hash 1%nat 3 2 13.
  loop_step hash 2%nat 6 5 16. loop_step hash 3%nat 8 4 11.
  loop_step hash 4%nat 2 3 5.
  reflexivity.
Qed.

(** C1. On every hash that satisfies the preconditions, [get_subhash]
    returns what the five-step algorithm of the specification computes:
    for the tables [14, 3, 6, 8, 2], [2, 2, 5, 4, 3] and [0, 13, 16, 11, 5]
    the digit at the index plus the offset gives [t], the two digits at
    [t] and [t + 1] give [v], and the last lowercase hexadecimal digit of
    [v] times the multiplier is the step's character; the five characters
    are concatenated in order. *)
Theorem get_subhash_follows_the_five_steps hash :
  Spec.well_formed hash = true →
  get_subhash hash = Ok (Spec.deriveSubHash hash).
Proof.
  intros Hwf. unfold get_subhash.
  rewrite (get_subhash_loop_refines hash Hwf). reflexivity.
Qed.

Lemma get_subhash_follows_the_five_steps_witness :
  Spec.well_formed "0123456789abcdef0123456789abcdef" = true ∧
  get_subhash "0123456789abcdef0123456789abcdef" = Ok "e2308".
Proof.
  split; [reflexivity|].
  exact (get_subhash_follows_the_five_steps "0123456789abcdef0123456789abcdef" eq_refl).
Defined.

(** C6. On every hash that satisfies the preconditions [get_subhash]
    does not raise, and what it returns is a string of five characters. *)
Theorem get_subhash_total hash :
  Spec.well_formed hash = true →
  ∃ s, get_subhash hash = Ok s ∧ String.length s = 5%nat.
Proof.
  intros Hwf. unfold get_subhash.
  rewrite (get_subhash_loop_refines hash Hwf).
  eexists; split; reflexivity.
Qed.

Lemma get_subhash_total_witness :
  Spec.well_formed "a1b2c3d4e5f6a1b2c3d4e5f6a1b2c3d4" = true ∧
  ∃ s, get_subhash "a1b2c3d4e5f6a1b2c3d4e5f6a1b2c3d4" = Ok s ∧ String.length s = 5%nat.
Proof.
  split; [reflexivity|].
  exact (get_subhash_total "a1b2c3d4e5f6a1b2c3d4e5f6a1b2c3d4" eq_refl).
Defined.

(** C3, as the claim states it, fails: on the hash of 16 characters
    [get_subhash] returns no string at all. *)
Lemma get_subhash_16_characters_no_result :
  ¬ ∃ s, get_subhash "0123456789abcdef" = Ok s.
Proof. intros [s Hs]. vm_compute in Hs. discriminate. Qed.

(** C3, amended. The hash "0123456789abcdef" does not satisfy the
    preconditions: the first step yields the character e, the second
    step reads the digit 3 at index 3, computes [t = 16], finds the slice
    from 16 to 18 empty and raises [ValueError].  The same sixteen
    characters written twice satisfy the preconditions and yield
    "e2308". *)
Theorem get_subhash_golden_value :
  get_subhash_step "0123456789abcdef" 0 = Ok "e" ∧
  Py.str_slice "0123456789abcdef" 16 18 = EmptyString ∧
  get_subhash_step "0123456789abcdef" 1 = Raise ValueError ∧
  get_subhash "0123456789abcdef" = Raise ValueError ∧
  Spec.well_formed "0123456789abcdef" = false ∧
  Spec.well_formed "0123456789abcdef0123456789abcdef" = true ∧
  get_subhash "0123456789abcdef0123456789abcdef" = Ok "e2308".
Proof. repeat split; vm_compute; reflexivity. Qed.


(** * The text substitutions *)

Lemma sub_italic_other s :
  (∀ s', s ≠ String "/" s') → sub_italic s = s.
Proof.
  intros Hs. destruct s as [|c s]; [done|].
  unfold sub_italic.
  destruct (ascii_dec c "/") as [->|Hc]; [by destruct (Hs s)|].
  by destruct c as [[] [] [] [] [] [] [] []].
Qed.

(** C4, evaluated on the code. In the text the transcoder writes, a cue
    whose line begins with a slash is left as it is, because the text
    does not begin with that slash; and the text "/hello" alone becomes
    the opening tag, hello, and a closing tag that holds a backslash, not
    the markup the claim gives. *)
Theorem normalize_slash_line :
  normalize sample_cue = sample_cue ∧
  normalize "/hello" = "<i>hello<\/i>" ∧
  normalize "/hello" ≠ "<i>hello</i>".
Proof. repeat split; vm_compute; congruence. Qed.

(** * The subtitle record *)

(** C8. [get_matches] returns the set that holds the one tag "hash"
    exactly when the video has a "napiprojekt" hash equal to the hash of
    the record, and the empty set in every other case. *)
Theorem get_matches_hash_iff (s : NapiProjektSubtitle) (v : Video) :
  (get_matches s v = {["hash"]} ↔ hashes v !! "napiprojekt" = Some (hash s)) ∧
  (hashes v !! "napiprojekt" ≠ Some (hash s) → get_matches s v = ∅).
Proof.
  unfold get_matches.
  destruct (hashes v !! "napiprojekt") as [h|] eqn:Hh.
  - destruct (decide (h = hash s)) as [->|Hne].
    + rewrite (left_id_L ∅ (∪)). split; [done|]. by intros [].
    + split; [|done]. split.
      * intros Heq. exfalso. assert (H : "hash" ∈ (∅ : gset string)) by (rewrite Heq; set_solver).
        set_solver.
      * intros [= ?]. done.
  - split; [|done]. split; [|done].
    intros Heq. exfalso. assert (H : "hash" ∈ (∅ : gset string)) by (rewrite Heq; set_solver).
    set_solver.
Qed.

Lemma run_op_frame env s op :
  language (run_op env s op) = language s ∧ hash (run_op env s op) = hash s.
Proof.
  destruct op as [[body|]| | | |]; simpl; try done.
  by destruct (ffmpeg_run env _).
Qed.

Lemma run_ops_frame env ops : ∀ s,
  language (run_ops env s ops) = language s ∧ hash (run_ops env s ops) = hash s.
Proof.
  unfold run_ops. induction ops as [|op ops IH]; intros s; simpl; [done|].
  destruct (IH (run_op env s op)) as [-> ->]. apply run_op_frame.
Qed.

(** C9. Assigning [None] to the content of a record, in whatever state
    the record is, raises nothing and leaves the record, its content
    included, as it was; and no sequence of operations on a record
    changes its hash or its language. *)
Theorem subtitle_frame env :
  (∀ s, set_content env s None = (Ok tt, s)) ∧
  (∀ s, content (run_op env s (OpSetContent None)) = content s) ∧
  (∀ s ops, language (run_ops env s ops) = language s ∧
            hash (run_ops env s ops) = hash s).
Proof. split; [done|]. split; [done|]. intros s ops. apply run_ops_frame. Qed.

(** * The provider *)

Lemma query_unfold env self lang h w :
  query env self lang h w =
  match query_request self lang h with
  | Raise e => (Raise e, w)
  | Ok req =>
      (match remote env w req with
       | Raise e => Raise e
       | Ok r =>
           match raise_for_status r with
           | Raise e => Raise e
           | Ok _ =>
               if decide (take 4 (resp_content r) = NPc0) then Ok None
               else hit env lang h (resp_content r)
           end
       end, w ++ [req])
  end.
Proof.
  unfold query, query_request, hit, derived_record, transcoder_input, normalize.
  unfold mbind, M_bind, result_bind, lift, Session_get, mret, M_ret.
  destruct (alpha2 lang) as [l|e]; [|done].
  destruct (get_subhash h) as [t|e]; [|done].
  destruct (session self) as [s|]; [|done].
  destruct (remote env w _) as [r|e]; [|done].
  destruct (raise_for_status r) as [[]|e]; [|done].
  destruct (decide _); [done|].
  unfold set_content, NapiProjektSubtitle_init. cbn [language hash].
  by destruct (ffmpeg_run env _).
Qed.

Lemma query_answered env self lang h w r :
  answered env self lang h w r →
  (query env self lang h w).1 =
  if decide (take 4 (resp_content r) = NPc0) then Ok None
  else hit env lang h (resp_content r).
Proof.
  intros (req & Hreq & Hr & Hst). rewrite query_unfold, Hreq. cbn [fst].
  by rewrite Hr, Hst.
Qed.

Lemma answered_intro env self lang h w r :
  (query_request self lang h ≫= remote env w) = Ok r →
  raise_for_status r = Ok tt →
  answered env self lang h w r.
Proof.
  intros Hr Hst. unfold answered.
  destruct (query_request self lang h) as [req|e]; [|done]. by exists req.
Qed.

Lemma hit_not_None env lang h body : hit env lang h body ≠ Ok None.
Proof. unfold hit. by destruct (ffmpeg_run env _). Qed.

Lemma hit_record env lang h body s :
  hit env lang h body = Ok (Some s) →
  language s = lang ∧ hash s = h ∧
  ∃ text, ffmpeg_run env (transcoder_input env body) = Ok text ∧
          content s = Some (encode_utf8 (normalize text)).
Proof.
  unfold hit. destruct (ffmpeg_run env _) as [text|e]; [|done].
  intros [= <-]. eauto.
Qed.

Lemma short_body_not_sentinel (body : list byte) :
  (length body < 4)%nat → take 4 body ≠ NPc0.
Proof.
  intros Hlen Heq. apply (f_equal length) in Heq.
  rewrite length_take in Heq. change (length NPc0) with 4%nat in Heq. lia.
Qed.

(** C2. Whenever the request is answered by a body whose first four
    bytes are the sentinel NPc0, whatever bytes follow, [query] returns
    [None]: no record and no exception. *)
Theorem query_sentinel_is_absent env self lang h w r rest :
  answered env self lang h w r →
  resp_content r = NPc0 ++ rest →
  (query env self lang h w).1 = Ok None.
Proof.
  intros Hans Hbody. rewrite (query_answered _ _ _ _ _ _ Hans), Hbody.
  by rewrite decide_True.
Qed.

Lemma query_sentinel_is_absent_witness :
  (query (sample_env []) (sample_provider []) english sample_hash []).1 = Ok None.
Proof.
  apply (query_sentinel_is_absent (sample_env []) (sample_provider []) english
           sample_hash []
           {| status_code := 200;
              resp_content := NPc0 ++ list_byte_of_string " no subtitles" |}
           (list_byte_of_string " no subtitles")).
  - apply answered_intro; vm_compute; reflexivity.
  - reflexivity.
Defined.

(** C5. Whenever the request is answered by a body that does not start
    with the sentinel, [query] goes on to derive the content.  When the
    transcoder succeeds it returns the record made of the language and
    the hash of the call and of the derived content.  It never returns a
    record whose language or hash differ or whose content is missing, and
    it never returns [None]; an exception of the transcoder reaches the
    caller. *)
Theorem query_hit_returns_record env self lang h w r :
  answered env self lang h w r →
  take 4 (resp_content r) ≠ NPc0 →
  (∀ text, ffmpeg_run env (transcoder_input env (resp_content r)) = Ok text →
     (query env self lang h w).1 = Ok (Some (derived_record lang h text))) ∧
  (∀ s, (query env self lang h w).1 = Ok (Some s) →
     language s = lang ∧ hash s = h ∧
     ∃ text, ffmpeg_run env (transcoder_input env (resp_content r)) = Ok text ∧
             content s = Some (encode_utf8 (normalize text))) ∧
  (query env self lang h w).1 ≠ Ok None ∧
  (∀ e, ffmpeg_run env (transcoder_input env (resp_content r)) = Raise e →
     (query env self lang h w).1 = Raise e).
Proof.
  intros Hans Hbody. rewrite (query_answered _ _ _ _ _ _ Hans).
  rewrite decide_False by done.
  split; [|split; [|split]].
  - intros text Ht. unfold hit. by rewrite Ht.
  - apply hit_record.
  - apply hit_not_None.
  - intros e He. unfold hit. by rewrite He.
Qed.

Lemma query_hit_returns_record_witness :
  ∃ s, (query (sample_env sample_body) (sample_provider sample_body) polish
          sample_hash []).1 = Ok (Some s) ∧
       language s = polish ∧ hash s = sample_hash ∧ is_Some (content s).
Proof.
  pose proof (query_hit_returns_record (sample_env sample_body)
                (sample_provider sample_body) polish sample_hash []
                {| status_code := 200; resp_content := sample_body |}) as H.
  destruct H as (H & _).
  - apply answered_intro; vm_compute; reflexivity.
  - vm_compute. discriminate.
  - eexists. split; [apply H; reflexivity|]. by repeat split.
Defined.

(** C10. Whenever the request is answered by a body of fewer than four
    bytes, the empty body included, the comparison with the sentinel
    fails and [query] takes the path of a hit: it derives the content
    from the short payload and returns the record when the transcoder
    succeeds, and it does not return [None]. *)
Theorem query_short_body_is_hit env self lang h w r :
  answered env self lang h w r →
  (length (resp_content r) < 4)%nat →
  take 4 (resp_content r) ≠ NPc0 ∧
  (query env self lang h w).1 = hit env lang h (resp_content r) ∧
  (query env self lang h w).1 ≠ Ok None ∧
  (∀ text, ffmpeg_run env (transcoder_input env (resp_content r)) = Ok text →
     (query env self lang h w).1 = Ok (Some (derived_record lang h text))).
Proof.
  intros Hans Hlen. pose proof (short_body_not_sentinel _ Hlen) as Hne.
  rewrite (query_answered _ _ _ _ _ _ Hans). rewrite decide_False by done.
  split; [done|]. split; [done|]. split; [apply hit_not_None|].
  intros text Ht. unfold hit. by rewrite Ht.
Qed.

Lemma query_short_body_is_hit_witness :
  ∃ s, (query (sample_env []) (sample_provider []) polish sample_hash []).1
       = Ok (Some s) ∧ is_Some (content s).
Proof.
  pose proof (query_short_body_is_hit (sample_env []) (sample_provider [])
                polish sample_hash []
                {| status_code := 200; resp_content := [] |}) as H.
  destruct H as (_ & _ & _ & H).
  - apply answered_intro; vm_compute; reflexivity.
  - simpl. lia.
  - eexists. split; [apply H; reflexivity|]. done.
Defined.

(** ** Listing *)

Lemma query_result env self l h w r w1 :
  query env self l h w = (Ok r, w1) →
  ∃ req, query_request self l h = Ok req ∧ w1 = w ++ [req] ∧
         ∀ s, r = Some s → language s = l ∧ hash s = h ∧ is_Some (content s).
Proof.
  rewrite query_unfold.
  destruct (query_request self l h) as [req|e]; [|done].
  intros [= Hr <-]. exists req. split; [done|]. split; [done|].
  intros s ->.
  destruct (remote env w req) as [resp|e]; [|done].
  destruct (raise_for_status resp); [|done].
  destruct (decide _); [done|].
  apply hit_record in Hr as (? & ? & text & _ & ->). eauto.
Qed.

Lemma list_subtitles_queries_run env self video h languages w rs w' :
  hashes video !! "napiprojekt" = Some h →
  queries_run env self h languages w rs w' →
  list_subtitles_queries env self video languages w = (Ok rs, w').
Proof.
  intros Hh Hrun. induction Hrun as [w|l ls w r w1 rs w2 Hq Hrun IH]; [done|].
  cbn [list_subtitles_queries].
  unfold mbind, M_bind, lift, dict_getitem. rewrite Hh, Hq.
  unfold mbind, M_bind in IH. by rewrite IH.
Qed.

Lemma queries_run_requests env self h languages w rs w' :
  queries_run env self h languages w rs w' →
  ∃ reqs, w' = w ++ reqs ∧
          Forall2 (λ l req, query_request self l h = Ok req) languages reqs.
Proof.
  induction 1 as [w|l ls w r w1 rs w2 Hq Hrun (reqs & -> & IH)].
  - exists []. by rewrite app_nil_r.
  - apply query_result in Hq as (req & Hreq & -> & _).
    exists (req :: reqs). split; [by rewrite <- app_assoc|]. by constructor.
Qed.

Lemma queries_run_records env self h languages w rs w' :
  queries_run env self h languages w rs w' →
  language <$> not_None rs `sublist_of` languages ∧
  Forall (λ s, hash s = h ∧ is_Some (content s)) (not_None rs).
Proof.
  induction 1 as [w|l ls w r w1 rs w2 Hq Hrun [IH1 IH2]]; [by split; constructor|].
  apply query_result in Hq as (req & _ & _ & Hr).
  destruct r as [s|]; cbn [not_None fmap list_fmap].
  - destruct (Hr s eq_refl) as (<- & ? & ?). split; [by constructor|].
    by constructor.
  - split; [by constructor|done].
Qed.

Lemma not_None_filter {A} (rs : list (option A)) :
  Some <$> not_None rs = filter is_Some rs.
Proof.
  induction rs as [|[a|] rs IH]; [done| |].
  - rewrite filter_cons_True by done. cbn. by rewrite IH.
  - rewrite filter_cons_False by (by intros [? ?]). exact IH.
Qed.

Lemma list_subtitles_queries_inv env self video languages : ∀ w rs w',
  languages ≠ [] →
  list_subtitles_queries env self video languages w = (Ok rs, w') →
  ∃ h, hashes video !! "napiprojekt" = Some h ∧
       queries_run env self h languages w rs w'.
Proof.
  induction languages as [|l ls IH]; intros w rs w' Hne; [done|].
  cbn [list_subtitles_queries]. unfold mbind, M_bind, lift, dict_getitem.
  destruct (hashes video !! "napiprojekt") as [h|] eqn:Hh; [|done].
  destruct (query env self l h w) as [[r|e] w1] eqn:Hq; [|done].
  destruct (list_subtitles_queries env self video ls w1) as [[rs'|e] w2] eqn:Hls;
    [|done].
  intros [= <- <-]. exists h. split; [done|].
  eapply queries_run_cons; [exact Hq|].
  destruct ls as [|l' ls'].
  - cbn in Hls. injection Hls as <- <-. constructor.
  - destruct (IH w1 rs' w2 ltac:(done) Hls) as (h' & Hh' & Hrun).
    by replace h with h' by congruence.
Qed.

(** Whatever [list_subtitles] returns comes from such runs. *)
Lemma list_subtitles_inv env self video languages w subtitles w' :
  languages ≠ [] →
  list_subtitles env self video languages w = (Ok subtitles, w') →
  ∃ h rs, hashes video !! "napiprojekt" = Some h ∧
          queries_run env self h languages w rs w' ∧
          Some <$> subtitles = filter is_Some rs.
Proof.
  intros Hne. unfold list_subtitles, mbind, M_bind.
  destruct (list_subtitles_queries env self video languages w) as [[rs|e] w1] eqn:Hls;
    [|done].
  intros [= <- <-].
  destruct (list_subtitles_queries_inv _ _ _ _ _ _ _ Hne Hls) as (h & Hh & Hrun).
  exists h, rs. by rewrite not_None_filter.
Qed.

(** C7. For a video that has a "napiprojekt" hash and a list of
    languages, when [query] run once for each language in order with
    that hash yields the results [rs], [list_subtitles] returns exactly
    the results that are not [None], in the order of the languages, and
    leaves the world as those runs left it: one request for each
    language, in order, and nothing else. *)
Theorem list_subtitles_in_order env self video languages h w rs w' :
  hashes video !! "napiprojekt" = Some h →
  queries_run env self h languages w rs w' →
  ∃ subtitles reqs,
    list_subtitles env self video languages w = (Ok subtitles, w') ∧
    Some <$> subtitles = filter is_Some rs ∧
    language <$> subtitles `sublist_of` languages ∧
    Forall (λ s, hash s = h ∧ is_Some (content s)) subtitles ∧
    w' = w ++ reqs ∧
    Forall2 (λ l req, query_request self l h = Ok req) languages reqs.
Proof.
  intros Hh Hrun.
  destruct (queries_run_requests _ _ _ _ _ _ _ Hrun) as (reqs & Hw & Hreqs).
  destruct (queries_run_records _ _ _ _ _ _ _ Hrun) as [Hsub Hall].
  exists (not_None rs), reqs. repeat split; try done.
  - unfold list_subtitles, mbind, M_bind.
    by rewrite (list_subtitles_queries_run _ _ _ _ _ _ _ _ Hh Hrun).
  - apply not_None_filter.
Qed.

Lemma list_subtitles_in_order_witness :
  ∃ s, (list_subtitles (sample_env sample_body) (sample_provider sample_body)
          sample_video [english; polish; french] []).1 = Ok [s] ∧
       language s = polish.
Proof.
  edestruct (list_subtitles_in_order (sample_env sample_body)
               (sample_provider sample_body) sample_video
               [english; polish; french] sample_hash []
               [None; Some (derived_record polish sample_hash
                              ("1" +:+ String LF ("00:00:00,000 --> 00:00:01,000" +:+
                                 String LF "{1}{25}/hello")));
                None])
    as (subtitles & reqs & Hlist & Hsome & _).
  - reflexivity.
  - eapply queries_run_cons; [vm_compute; reflexivity|].
    eapply queries_run_cons; [vm_compute; reflexivity|].
    eapply queries_run_cons; [vm_compute; reflexivity|].
    apply queries_run_nil.
  - rewrite Hlist. cbn [fst].
    destruct subtitles as [|s [|s' subtitles]]; try discriminate Hsome.
    injection Hsome as ->. by eexists.
Defined.

(** * Further properties of [get_subhash] *)

Lemma single_char_agrees_all : forallb single_char_agrees all_ascii = true.
Proof. vm_compute. reflexivity. Qed.

Lemma int16_not_digit c :
  Py.hexval c = None → Py.int16 (String c EmptyString) = Raise ValueError.
Proof.
  intros Hc. pose proof (forall_ascii _ single_char_agrees_all c) as H.
  unfold single_char_agrees in H. rewrite Hc in H.
  by apply bool_decide_eq_true in H.
Qed.

Lemma int16_single_inv c d :
  Py.int16 (String c EmptyString) = Ok d → Py.hexval c = Some d.
Proof.
  destruct (Py.hexval c) as [d'|] eqn:Hc.
  - rewrite (int16_digit _ _ Hc). by intros [= ->].
  - by rewrite (int16_not_digit _ Hc).
Qed.

Lemma str_getitem_inv s i r :
  0 ≤ i → Py.str_getitem s i = Ok r →
  ∃ c, r = String c EmptyString ∧ String.get (Z.to_nat i) s = Some c.
Proof.
  intros Hi. unfold Py.str_getitem. cbv zeta.
  assert (E1 : (i <? 0) = false) by (apply Z.ltb_ge; lia).
  rewrite E1. cbv iota. rewrite E1.
  destruct (Py.len s <=? i); [done|]. cbn [orb].
  destruct (String.get (Z.to_nat i) s) as [c|]; [|done].
  intros [= <-]. by exists c.
Qed.

Lemma str_getitem_out_of_range s i :
  Py.len s ≤ i → Py.str_getitem s i = Raise IndexError.
Proof.
  intros Hi. unfold Py.str_getitem, Py.len in *. cbv zeta.
  assert (E1 : (i <? 0) = false) by (apply Z.ltb_ge; lia).
  rewrite E1. cbv iota. rewrite E1.
  assert (E2 : (Z.of_nat (String.length s) <=? i) = true) by (apply Z.leb_le; lia).
  by rewrite E2.
Qed.

(** X1. A hash of fewer than 15 characters makes [get_subhash] raise
    [IndexError]: the first step reads the character at index 14. *)
Theorem get_subhash_too_short hash :
  (String.length hash < 15)%nat → get_subhash hash = Raise IndexError.
Proof.
  intros Hlen.
  assert (Hstep : get_subhash_step hash 0 = Raise IndexError).
  { unfold get_subhash_step, Py.list_getitem. simpl.
    rewrite (str_getitem_out_of_range hash 14) by (unfold Py.len; lia).
    reflexivity. }
  unfold get_subhash.
  change (seq 0 (length idx)) with [0; 1; 2; 3; 4]%nat.
  cbn [get_subhash_loop]. by rewrite Hstep.
Qed.

Lemma get_subhash_too_short_witness :
  get_subhash "0123456789abcd" = Raise IndexError.
Proof. apply get_subhash_too_short. simpl. lia. Defined.



Lemma format_x_last_any n :
  Py.str_getitem (Py.format_x n) (-1) =
  Ok (String (Py.hex_digit (Z.abs n mod 16)) EmptyString).
Proof.
  destruct (Z_lt_le_dec n 0) as [Hneg|Hpos].
  - unfold Py.format_x.
    assert (E : (n <? 0) = true) by (apply Z.ltb_lt; lia). rewrite E.
    destruct (hex_of_snoc (Z.to_nat (Z.log2 (- n))) (- n)) as [p ->]; [lia|].
    rewrite Z.abs_neq by lia.
    change (String "-" (p +:+ ?s)) with (String "-" p +:+ s).
    apply str_getitem_last.
  - rewrite Z.abs_eq by done. by apply format_x_last.
Qed.

Lemma hex_digit_lower d : 0 ≤ d < 16 → is_lower_hex (Py.hex_digit d) = true.
Proof.
  intros Hd.
  assert (Hcases : d = 0 ∨ d = 1 ∨ d = 2 ∨ d = 3 ∨ d = 4 ∨ d = 5 ∨ d = 6 ∨ d = 7 ∨
                   d = 8 ∨ d = 9 ∨ d = 10 ∨ d = 11 ∨ d = 12 ∨ d = 13 ∨ d = 14 ∨ d = 15)
    by lia.
  repeat (destruct Hcases as [->|Hcases]; [reflexivity|]). by subst.
Qed.

Lemma get_subhash_step_digit hash k c :
  get_subhash_step hash k = Ok c → one_lower_hex c.
Proof.
  unfold get_subhash_step, mbind, result_bind.
  destruct (Py.list_getitem add k) as [a|]; [|done].
  destruct (Py.list_getitem mul k) as [m|]; [|done].
  destruct (Py.list_getitem idx k) as [i|]; [|done].
  destruct (Py.str_getitem hash i) as [ch|]; [|done].
  destruct (Py.int16 ch) as [d|]; [|done].
  destruct (Py.int16 _) as [v|]; [|done].
  rewrite format_x_last_any. intros [= <-].
  eexists. split; [done|]. apply hex_digit_lower, Z.mod_pos_bound. lia.
Qed.

Lemma get_subhash_loop_digits hash range : ∀ b b',
  get_subhash_loop hash range b = Ok b' →
  ∃ cs, b' = b ++ cs ∧ length cs = length range ∧ Forall one_lower_hex cs.
Proof.
  induction range as [|k range IH]; intros b b'; cbn [get_subhash_loop].
  - intros [= <-]. exists []. by rewrite app_nil_r.
  - unfold mbind, result_bind.
    destruct (get_subhash_step hash k) as [c|] eqn:Hc; [|done].
    intros (cs & -> & Hlen & Hall)%IH.
    exists (c :: cs). rewrite <- app_assoc. split; [done|].
    split; [simpl; lia|].
    constructor; [by eapply get_subhash_step_digit | done].
Qed.

Lemma join_digits cs :
  Forall one_lower_hex cs →
  String.length (Py.join cs) = length cs ∧
  string_forallb is_lower_hex (Py.join cs) = true.
Proof.
  induction 1 as [|c cs (a & -> & Ha) _ [IH1 IH2]]; [done|].
  change (Py.join (String a EmptyString :: cs)) with (String a (Py.join cs)).
  cbn [String.length string_forallb length]. by rewrite IH1, Ha, IH2.
Qed.

Lemma get_subhash_ok_shape hash s :
  get_subhash hash = Ok s →
  String.length s = 5%nat ∧ string_forallb is_lower_hex s = true.
Proof.
  unfold get_subhash, mbind, result_bind.
  destruct (get_subhash_loop hash _ []) as [b|] eqn:Hb; [|done].
  intros [= <-].
  apply get_subhash_loop_digits in Hb as (cs & -> & Hlen & Hall).
  rewrite app_nil_l.
  destruct (join_digits _ Hall) as [H1 H2]. by rewrite H1, Hlen.
Qed.

(** X3. Whatever the hash, when [get_subhash] returns, it returns five
    characters, each a digit or a letter from a to f. *)
Theorem get_subhash_result_shape hash s :
  get_subhash hash = Ok s →
  String.length s = 5%nat ∧ string_forallb is_lower_hex s = true.
Proof. apply get_subhash_ok_shape. Qed.

Lemma get_subhash_result_shape_witness :
  String.length "e2b08" = 5%nat ∧ string_forallb is_lower_hex "e2b08" = true.
Proof.
  apply (get_subhash_result_shape "012345f789abcdef0123456789abcdef").
  vm_compute. reflexivity.
Defined.

(** ** Hashes made of hexadecimal digits *)

Lemma all_hex_get s : ∀ n,
  all_hex s = true → (n < String.length s)%nat →
  ∃ c d, String.get n s = Some c ∧ Py.hexval c = Some d.
Proof.
  unfold all_hex. induction s as [|a s IH]; intros n Hall Hn; simpl in *; [lia|].
  apply andb_true_iff in Hall as [Ha Hall].
  destruct n as [|n].
  - unfold is_hex in Ha. destruct (Py.hexval a) as [d|] eqn:Hd; [|done]. eauto.
  - apply IH; [done | lia].
Qed.

Lemma substring_one s : ∀ n c,
  String.get n s = Some c → String.substring n 1 s = String c EmptyString.
Proof.
  induction s as [|a s IH]; intros [|n] c H; simpl in *; try discriminate.
  - injection H as ->. by destruct s.
  - by apply IH.
Qed.

Lemma str_slice_last s t c :
  0 ≤ t → String.get (Z.to_nat t) s = Some c →
  Py.len s = t + 1 →
  Py.str_slice s t (t + 2) = String c EmptyString.
Proof.
  intros Ht Hget Hlen. unfold Py.str_slice, Py.clamp. rewrite Hlen.
  assert (E1 : (t <? 0) = false) by (apply Z.ltb_ge; lia).
  assert (E2 : (t + 2 <? 0) = false) by (apply Z.ltb_ge; lia).
  rewrite E1, E2. rewrite (Z.min_l t) by lia. rewrite (Z.min_r (t + 2)) by lia.
  assert (E3 : (t + 1 <=? t) = false) by (apply Z.leb_gt; lia). rewrite E3.
  replace (Z.to_nat (t + 1 - t)) with 1%nat by lia.
  by apply substring_one.
Qed.

(** On a hash of hexadecimal digits the slice of a step converts, also
    at the last position, where it holds one digit only. *)
Lemma slice_of_hex_converts hash t :
  all_hex hash = true → 0 ≤ t < Py.len hash →
  ∃ v, Py.int16 (Py.str_slice hash t (t + 2)) = Ok v ∧ 0 ≤ v.
Proof.
  intros Hall Ht. unfold Py.len in Ht.
  destruct (all_hex_get hash (Z.to_nat t) Hall) as (c1 & d1 & Hc1 & Hd1); [lia|].
  pose proof (hexval_range _ _ Hd1).
  destruct (Z.eq_dec (Py.len hash) (t + 1)) as [Hlast|Hmore].
  - rewrite (str_slice_last _ _ _ (proj1 Ht) Hc1 Hlast).
    rewrite (int16_digit _ _ Hd1). exists d1. split; [done | lia].
  - unfold Py.len in Hmore.
    destruct (all_hex_get hash (Z.to_nat (t + 1)) Hall) as (c2 & d2 & Hc2 & Hd2); [lia|].
    pose proof (hexval_range _ _ Hd2).
    rewrite (str_slice_two _ _ _ _ (proj1 Ht) Hc1 Hc2).
    rewrite (int16_two_digits _ _ _ _ Hd1 Hd2). eexists. split; [done | lia].
Qed.

Lemma get_subhash_step_on_hex hash k i m a :
  idx !! k = Some i → mul !! k = Some m → add !! k = Some a →
  0 ≤ i < 32 → 0 ≤ a ≤ 16 →
  all_hex hash = true → (32 ≤ String.length hash)%nat →
  ∃ c, get_subhash_step hash k = Ok c.
Proof.
  intros Hi Hm Ha Hi32 Ha16 Hall Hlen.
  destruct (all_hex_get hash (Z.to_nat i) Hall) as (c & d & Hc & Hd); [lia|].
  pose proof (hexval_range _ _ Hd).
  destruct (slice_of_hex_converts hash (a + d) Hall) as (v & Hv & _);
    [unfold Py.len; lia|].
  unfold get_subhash_step, Py.list_getitem. rewrite Ha, Hm, Hi. simpl.
  rewrite (str_getitem_get _ _ _ (proj1 Hi32) Hc). simpl.
  rewrite (int16_digit _ _ Hd). simpl. rewrite Hv. simpl.
  rewrite format_x_last_any. eauto.
Qed.

(** X4. On every hash of at least 32 characters that are all
    hexadecimal digits, of either case, [get_subhash] returns a string
    of five characters: also when a step lands on the last character of
    a hash of 32, where its slice holds one digit. *)
Theorem get_subhash_total_on_hex_digests hash :
  all_hex hash = true → (32 ≤ String.length hash)%nat →
  ∃ s, get_subhash hash = Ok s ∧ String.length s = 5%nat.
Proof.
  intros Hall Hlen.
  destruct (get_subhash_step_on_hex hash 0 14 2 0) as [c0 H0]; try (done || lia).
  destruct (get_subhash_step_on_hex hash 1 3 2 13) as [c1 H1]; try (done || lia).
  destruct (get_subhash_step_on_hex hash 2 6 5 16) as [c2 H2]; try (done || lia).
  destruct (get_subhash_step_on_hex hash 3 8 4 11) as [c3 H3]; try (done || lia).
  destruct (get_subhash_step_on_hex hash 4 2 3 5) as [c4 H4]; try (done || lia).
  assert (Hb : get_subhash_loop hash (seq 0 (length idx)) [] = Ok [c0; c1; c2; c3; c4]).
  { change (seq 0 (length idx)) with [0; 1; 2; 3; 4]%nat.
    cbn [get_subhash_loop]. by rewrite H0, H1, H2, H3, H4. }
  destruct (get_subhash_loop_digits _ _ _ _ Hb) as (cs & Hcs & _ & Hdigits).
  rewrite app_nil_l in Hcs. subst cs.
  exists (Py.join [c0; c1; c2; c3; c4]). split.
  - unfold get_subhash. by rewrite Hb.
  - by rewrite (proj1 (join_digits _ Hdigits)).
Qed.

Lemma get_subhash_total_on_hex_digests_witness :
  ∃ s, get_subhash "012345f789abcdef0123456789abcdeF" = Ok s ∧
       String.length s = 5%nat.
Proof.
  apply get_subhash_total_on_hex_digests; [reflexivity | simpl; lia].
Defined.

(** ** What [get_subhash] reads *)

Lemma get_app_l s1 s2 : ∀ n,
  (n < String.length s1)%nat → String.get n (s1 +:+ s2) = String.get n s1.
Proof.
  induction s1 as [|a s1 IH]; intros [|n] Hn; simpl in *; try lia; [done|].
  apply IH. lia.
Qed.

Lemma substring_app_l s1 s2 : ∀ n m,
  (n + m ≤ String.length s1)%nat →
  String.substring n m (s1 +:+ s2) = String.substring n m s1.
Proof.
  induction s1 as [|a s1 IH]; intros n m Hn; simpl in *.
  - assert (n = 0%nat ∧ m = 0%nat) as [-> ->] by lia. by destruct s2.
  - destruct n as [|n].
    + destruct m as [|m]; [done|]. f_equal. apply (IH 0%nat). lia.
    + apply IH. lia.
Qed.

Lemma str_getitem_app_l s1 s2 i :
  0 ≤ i < Py.len s1 → Py.str_getitem (s1 +:+ s2) i = Py.str_getitem s1 i.
Proof.
  intros Hi. unfold Py.str_getitem, Py.len in *. cbv zeta.
  rewrite length_app.
  assert (E1 : (i <? 0) = false) by (apply Z.ltb_ge; lia).
  rewrite E1. cbv iota. rewrite E1.
  assert (E2 : (Z.of_nat (String.length s1 + String.length s2) <=? i) = false)
    by (apply Z.leb_gt; lia).
  assert (E3 : (Z.of_nat (String.length s1) <=? i) = false) by (apply Z.leb_gt; lia).
  rewrite E2, E3. cbn [orb]. rewrite get_app_l by lia. done.
Qed.

Lemma str_slice_app_l s1 s2 t :
  0 ≤ t → t + 2 ≤ Py.len s1 →
  Py.str_slice (s1 +:+ s2) t (t + 2) = Py.str_slice s1 t (t + 2).
Proof.
  intros Ht Hlen. unfold Py.str_slice, Py.clamp, Py.len in *.
  rewrite length_app.
  assert (E1 : (t <? 0) = false) by (apply Z.ltb_ge; lia).
  assert (E2 : (t + 2 <? 0) = false) by (apply Z.ltb_ge; lia).
  rewrite E1, E2. rewrite !(Z.min_l t), !(Z.min_l (t + 2)) by lia.
  assert (E3 : (t + 2 <=? t) = false) by (apply Z.leb_gt; lia). rewrite E3.
  apply substring_app_l. lia.
Qed.

Lemma get_subhash_step_prefix h tail k :
  (33 ≤ String.length h)%nat →
  get_subhash_step (h +:+ tail) k = get_subhash_step h k.
Proof.
  intros Hlen. unfold get_subhash_step, Py.list_getitem.
  destruct (add !! k) as [a|] eqn:Ha; [|done].
  destruct (mul !! k) as [m|] eqn:Hm; [|done].
  destruct (idx !! k) as [i|] eqn:Hi; [|done].
  assert (Hbounds : 0 ≤ i < 15 ∧ 0 ≤ a ≤ 16).
  { destruct k as [|[|[|[|[|k]]]]]; simpl in *; simplify_eq; lia. }
  cbn [mbind result_bind].
  rewrite str_getitem_app_l by (unfold Py.len; lia).
  destruct (Py.str_getitem h i) as [c|] eqn:Hc; [|done].
  apply str_getitem_inv in Hc as (ch & -> & _); [|lia].
  cbn [mbind result_bind].
  destruct (Py.int16 (String ch EmptyString)) as [d|] eqn:Hd; [|done].
  apply int16_single_inv, hexval_range in Hd.
  cbn [mbind result_bind].
  rewrite str_slice_app_l by (unfold Py.len; lia). done.
Qed.

Lemma get_subhash_loop_ext h1 h2 range :
  (∀ k, get_subhash_step h1 k = get_subhash_step h2 k) →
  ∀ b, get_subhash_loop h1 range b = get_subhash_loop h2 range b.
Proof.
  intros Hstep. induction range as [|k range IH]; intros b; [done|].
  cbn [get_subhash_loop]. rewrite Hstep.
  destruct (get_subhash_step h2 k); [apply IH | done].
Qed.

(** X6. [get_subhash] reads the first 33 characters of the hash only:
    whatever is appended to a hash of at least 33 characters changes
    neither the result nor the exception. *)
Theorem get_subhash_reads_33_characters h tail :
  (33 ≤ String.length h)%nat →
  get_subhash (h +:+ tail) = get_subhash h.
Proof.
  intros Hlen. unfold get_subhash.
  by rewrite (get_subhash_loop_ext (h +:+ tail) h _
                (λ k, get_subhash_step_prefix h tail k Hlen)).
Qed.

Lemma get_subhash_reads_33_characters_witness :
  get_subhash ("012345f789abcdef0123456789abcdef0" +:+ "-trailer") =
  get_subhash "012345f789abcdef0123456789abcdef0".
Proof. apply get_subhash_reads_33_characters. simpl. lia. Defined.

(** ** Letter case *)

Lemma int16_stages s :
  Py.int16 s =
  let '(sign, s') := split_sign (Py.lstrip s) in int16_after_sign sign s'.
Proof. reflexivity. Qed.

Lemma upper_char_agrees_all : forallb upper_char_agrees all_ascii = true.
Proof. vm_compute. reflexivity. Qed.

Lemma upper_char_tests c :
  Py.is_space (upper_char c) = Py.is_space c ∧
  Py.hexval (upper_char c) = Py.hexval c ∧
  Py.is_underscore (upper_char c) = Py.is_underscore c ∧
  Ascii.eqb (upper_char c) "+" = Ascii.eqb c "+" ∧
  Ascii.eqb (upper_char c) "-" = Ascii.eqb c "-" ∧
  Ascii.eqb (upper_char c) "0" = Ascii.eqb c "0" ∧
  Ascii.eqb (upper_char c) "_" = Ascii.eqb c "_" ∧
  Ascii.eqb (upper_char c) "x" || Ascii.eqb (upper_char c) "X" =
  Ascii.eqb c "x" || Ascii.eqb c "X".
Proof.
  pose proof (forall_ascii _ upper_char_agrees_all c) as H.
  unfold upper_char_agrees in H. cbv zeta in H.
  rewrite !andb_true_iff, !bool_decide_eq_true in H. tauto.
Qed.

(** The matches on character constants, as tests. *)
Lemma split_sign_tests s :
  split_sign s =
  match s with
  | String c rest =>
      if Ascii.eqb c "+" then (1, rest)
      else if Ascii.eqb c "-" then (-1, rest) else (1, s)
  | EmptyString => (1, s)
  end.
Proof. destruct s as [|[[] [] [] [] [] [] [] []] rest]; reflexivity. Qed.

Lemma skip_prefix_tests s :
  Py.skip_prefix s =
  match s with
  | String c1 (String c2 rest) =>
      if Ascii.eqb c1 "0" && (Ascii.eqb c2 "x" || Ascii.eqb c2 "X") then
        match rest with
        | String c3 rest' => if Ascii.eqb c3 "_" then rest' else rest
        | EmptyString => rest
        end
      else s
  | _ => s
  end.
Proof.
  destruct s as [|c1 [|c2 rest]]; [done| |].
  - by destruct c1 as [[] [] [] [] [] [] [] []].
  - destruct c1 as [[] [] [] [] [] [] [] []]; try reflexivity.
    cbn [Py.skip_prefix Ascii.eqb Bool.eqb andb].
    destruct (Ascii.eqb c2 "x" || Ascii.eqb c2 "X"); [|done].
    destruct rest as [|[[] [] [] [] [] [] [] []] rest']; reflexivity.
Qed.

Lemma underscore_head_tests {A} (s : string) (x y : A) :
  match s with String "_" _ => x | _ => y end =
  match s with
  | String c _ => if Ascii.eqb c "_" then x else y
  | EmptyString => y
  end.
Proof. destruct s as [|[[] [] [] [] [] [] [] []] rest]; reflexivity. Qed.

Lemma lstrip_upper s : Py.lstrip (upper s) = upper (Py.lstrip s).
Proof.
  induction s as [|c s IH]; [done|]. cbn [upper Py.lstrip].
  destruct (upper_char_tests c) as (-> & _).
  by destruct (Py.is_space c).
Qed.

Lemma split_sign_upper s :
  split_sign (upper s) = ((split_sign s).1, upper (split_sign s).2).
Proof.
  rewrite !split_sign_tests. destruct s as [|c s]; [done|]. cbn [upper].
  destruct (upper_char_tests c) as (_ & _ & _ & -> & -> & _).
  by destruct (Ascii.eqb c "+"), (Ascii.eqb c "-").
Qed.

Lemma skip_prefix_upper s : Py.skip_prefix (upper s) = upper (Py.skip_prefix s).
Proof.
  rewrite !skip_prefix_tests. destruct s as [|c1 [|c2 rest]]; [done..|].
  cbn [upper].
  destruct (upper_char_tests c1) as (_ & _ & _ & _ & _ & -> & _).
  destruct (upper_char_tests c2) as (_ & _ & _ & _ & _ & _ & _ & ->).
  destruct (Ascii.eqb c1 "0" && (Ascii.eqb c2 "x" || Ascii.eqb c2 "X")); [|done].
  destruct rest as [|c3 rest']; [done|]. cbn [upper].
  destruct (upper_char_tests c3) as (_ & _ & _ & _ & _ & _ & -> & _).
  by destruct (Ascii.eqb c3 "_").
Qed.

Lemma scan_digits_upper s : ∀ p acc n,
  Py.scan_digits (upper s) p acc n =
  (λ '(v, k, rest), (v, k, upper rest)) <$> Py.scan_digits s p acc n.
Proof.
  induction s as [|c s IH]; intros p acc n; cbn [upper Py.scan_digits].
  - by destruct p.
  - destruct (upper_char_tests c) as (_ & -> & -> & _).
    destruct (Py.is_underscore c).
    + destruct p; [done | apply IH].
    + destruct (Py.hexval c); [apply IH | by destruct p].
Qed.

Lemma int16_after_sign_upper sign s :
  int16_after_sign sign (upper s) = int16_after_sign sign s.
Proof.
  unfold int16_after_sign. cbv zeta. rewrite skip_prefix_upper.
  rewrite !underscore_head_tests.
  destruct (Py.skip_prefix s) as [|c t]; [done|].
  rewrite scan_digits_upper. cbn [upper].
  destruct (upper_char_tests c) as (_ & _ & _ & _ & _ & _ & -> & _).
  destruct (Ascii.eqb c "_"); [done|].
  destruct (Py.scan_digits (String c t) false 0 0) as [[[v k] rest]|]; [|done].
  cbn. destruct k; [done|]. rewrite lstrip_upper.
  by destruct (Py.lstrip rest).
Qed.

Lemma int16_upper s : Py.int16 (upper s) = Py.int16 s.
Proof.
  rewrite !int16_stages, lstrip_upper, split_sign_upper.
  destruct (split_sign (Py.lstrip s)) as [sign rest]. cbn [fst snd].
  apply int16_after_sign_upper.
Qed.

Lemma length_upper s : String.length (upper s) = String.length s.
Proof. induction s as [|c s IH]; simpl; [done | by rewrite IH]. Qed.

Lemma get_upper s : ∀ n, String.get n (upper s) = upper_char <$> String.get n s.
Proof. induction s as [|c s IH]; intros [|n]; simpl; auto. Qed.

Lemma substring_upper s : ∀ n m,
  String.substring n m (upper s) = upper (String.substring n m s).
Proof.
  induction s as [|c s IH]; intros [|n] [|m]; simpl; rewrite ?IH; auto.
Qed.

Lemma str_getitem_upper s i :
  Py.str_getitem (upper s) i =
  match Py.str_getitem s i with
  | Ok c => Ok (upper c)
  | Raise e => Raise e
  end.
Proof.
  unfold Py.str_getitem, Py.len. cbv zeta. rewrite length_upper, get_upper.
  destruct (_ || _); [done|]. by destruct (String.get _ s).
Qed.

Lemma str_slice_upper s lo hi :
  Py.str_slice (upper s) lo hi = upper (Py.str_slice s lo hi).
Proof.
  unfold Py.str_slice, Py.len. cbv zeta. rewrite length_upper.
  destruct (_ <=? _); [done|]. apply substring_upper.
Qed.

Lemma get_subhash_step_upper h k :
  get_subhash_step (upper h) k = get_subhash_step h k.
Proof.
  unfold get_subhash_step.
  destruct (Py.list_getitem add k) as [a|]; [|done].
  destruct (Py.list_getitem mul k) as [m|]; [|done].
  destruct (Py.list_getitem idx k) as [i|]; [|done].
  cbn [mbind result_bind]. rewrite str_getitem_upper.
  destruct (Py.str_getitem h i) as [c|]; [|done].
  cbn [mbind result_bind]. rewrite int16_upper.
  destruct (Py.int16 c) as [d|]; [|done].
  cbn [mbind result_bind]. by rewrite str_slice_upper, int16_upper.
Qed.

(** X5. [get_subhash] does not tell capitals from small letters: a hash
    and the same hash with its letters from a to z written as capitals
    give the same result, or the same exception. *)
Theorem get_subhash_ignores_case h :
  get_subhash (upper h) = get_subhash h.
Proof.
  unfold get_subhash.
  by rewrite (get_subhash_loop_ext (upper h) h _ (get_subhash_step_upper h)).
Qed.

(** * Further properties of the text substitutions *)

Lemma dot_star_line line rest :
  without LF line = true →
  dot_star (line +:+ String LF rest) = (line, String LF rest) ∧
  dot_star line = (line, EmptyString).
Proof.
  unfold without. induction line as [|c line IH]; intros Hline.
  - split; reflexivity.
  - cbn [string_forallb] in Hline. apply andb_true_iff in Hline as [Hc Hline].
    destruct (IH Hline) as [IH1 IH2].
    change (String c line +:+ String LF rest) with (String c (line +:+ String LF rest)).
    cbn [dot_star]. destruct (Ascii.eqb c LF); [done|]. by rewrite IH1, IH2.
Qed.

(** X7. The first substitution rewrites the first line only. When the
    text begins with a slash, what follows the slash up to the first
    line feed is put between the opening tag and the closing tag the
    template spells, and the line feed and everything after it stay as
    they are, lines that begin with a slash included. *)
Theorem sub_italic_first_line_only line rest :
  without LF line = true →
  sub_italic (String "/" (line +:+ String LF rest)) =
  "<i>" +:+ line +:+ "<\/i>" +:+ String LF rest.
Proof.
  intros Hline. unfold sub_italic.
  by rewrite (proj1 (dot_star_line line rest Hline)).
Qed.

Lemma sub_italic_first_line_only_witness :
  sub_italic (String "/" ("one" +:+ String LF "/two")) =
  "<i>" +:+ "one" +:+ "<\/i>" +:+ String LF "/two".
Proof. apply sub_italic_first_line_only. reflexivity. Defined.

Lemma sub_backslash_r_tests c s :
  sub_backslash_r (String c s) =
  if Ascii.eqb c "\" then
    match s with
    | String d rest =>
        if Ascii.eqb d "r" then sub_backslash_r rest
        else String c (sub_backslash_r s)
    | EmptyString => String c EmptyString
    end
  else String c (sub_backslash_r s).
Proof.
  destruct c as [[] [] [] [] [] [] [] []]; try reflexivity.
  destruct s as [|[[] [] [] [] [] [] [] []] rest]; reflexivity.
Qed.

Lemma sub_backslash_r_without s :
  without "\" s = true → sub_backslash_r s = s.
Proof.
  unfold without. induction s as [|c s IH]; [done|].
  cbn [string_forallb]. intros [Hc Hs]%andb_true_iff.
  rewrite sub_backslash_r_tests. apply negb_true_iff in Hc. rewrite Hc.
  by rewrite IH.
Qed.

(** X8. A text that does not begin with a slash and holds no backslash
    passes both substitutions unchanged. *)
Theorem normalize_unchanged s :
  (∀ rest, s ≠ String "/" rest) → without "\" s = true →
  normalize s = s.
Proof.
  intros Hslash Hback. unfold normalize.
  rewrite (sub_italic_other s Hslash). by apply sub_backslash_r_without.
Qed.

Lemma normalize_unchanged_witness : normalize sample_cue = sample_cue.
Proof. apply normalize_unchanged; [intros rest; discriminate | reflexivity]. Defined.

(** * Further properties of the subtitle record *)

(** X9. When the content setter raises, the record is left exactly as
    it was: a failed derivation does not touch the content already
    there. *)
Theorem set_content_failure_keeps_record env s c e :
  (set_content env s c).1 = Raise e → (set_content env s c).2 = s.
Proof.
  unfold set_content. destruct c as [body|]; [|done].
  by destruct (ffmpeg_run env _).
Qed.

Lemma set_content_failure_keeps_record_witness :
  (set_content (constant_env (Raise RequestException) (Raise FFmpegError))
     (derived_record polish sample_hash "old") (Some sample_body)).2 =
  derived_record polish sample_hash "old".
Proof.
  apply (set_content_failure_keeps_record _ _ _ FFmpegError). reflexivity.
Defined.

Lemma run_op_keeps_content env s op :
  is_Some (content s) → is_Some (content (run_op env s op)).
Proof.
  intros Hs. destruct op as [[body|]| | | |]; simpl; try done.
  unfold set_content. by destruct (ffmpeg_run env _).
Qed.

(** X10. Once a record has content, no sequence of operations on it
    leaves it without: the setter replaces the content or keeps it, and
    never clears it. *)
Theorem content_is_never_cleared env ops : ∀ s,
  is_Some (content s) → is_Some (content (run_ops env s ops)).
Proof.
  unfold run_ops. induction ops as [|op ops IH]; intros s Hs; [done|].
  simpl. by apply IH, run_op_keeps_content.
Qed.

Lemma content_is_never_cleared_witness :
  is_Some (content (run_ops (constant_env (Raise RequestException) (Raise FFmpegError))
                      (derived_record polish sample_hash "old")
                      [OpSetContent None; OpSetContent (Some sample_body); OpId])).
Proof. apply content_is_never_cleared. by eexists. Defined.

(** * Further properties of [query] *)

(** X11. On a provider that has no session, [query] raises and sends
    nothing: the exception of the language code or of the hash when one
    of them fails, and [AttributeError] otherwise. *)
Theorem query_without_session env self lang h w :
  session self = None →
  query env self lang h w =
  (Raise match alpha2 lang with
         | Raise e => e
         | Ok _ => match get_subhash h with
                   | Raise e => e
                   | Ok _ => AttributeError
                   end
         end, w).
Proof.
  intros Hs. rewrite query_unfold. unfold query_request. rewrite Hs.
  destruct (alpha2 lang); [|done]. by destruct (get_subhash h).
Qed.

Lemma query_without_session_witness :
  query (sample_env []) NapiProjektProvider_init polish sample_hash [] =
  (Raise AttributeError, []).
Proof.
  exact (query_without_session (sample_env []) NapiProjektProvider_init polish
           sample_hash [] eq_refl).
Defined.

(** X12. When [get_subhash] raises on the hash, [query] raises the same
    exception and no request is sent. *)
Theorem query_malformed_hash_sends_nothing env self lang h w l e :
  alpha2 lang = Ok l → get_subhash h = Raise e →
  query env self lang h w = (Raise e, w).
Proof.
  intros Hl He. rewrite query_unfold. unfold query_request.
  by rewrite Hl, He.
Qed.

Lemma query_malformed_hash_sends_nothing_witness :
  query (sample_env []) (sample_provider []) polish "0123456789abcdef" [] =
  (Raise ValueError, []).
Proof.
  apply (query_malformed_hash_sends_nothing _ _ _ _ _ "pl"); reflexivity.
Defined.

(** X13. A response with a status from 400 to 599 makes [query] raise
    [HTTPError] whatever its body is, the sentinel included; the request
    has been sent. *)
Theorem query_error_status env self lang h w req r :
  query_request self lang h = Ok req → remote env w req = Ok r →
  400 ≤ status_code r < 600 →
  query env self lang h w = (Raise HTTPError, w ++ [req]).
Proof.
  intros Hreq Hr Hst. rewrite query_unfold, Hreq, Hr.
  unfold raise_for_status.
  assert (E : (400 <=? status_code r) && (status_code r <? 600) = true).
  { apply andb_true_iff. split; [apply Z.leb_le | apply Z.ltb_lt]; lia. }
  by rewrite E.
Qed.

Lemma query_error_status_witness :
  (query (constant_env (Ok {| status_code := 404; resp_content := NPc0 |}) (Ok "1"))
     (sample_provider []) polish sample_hash []).1 = Raise HTTPError.
Proof.
  destruct (query_request (sample_provider []) polish sample_hash) as [req|] eqn:Hreq;
    [|vm_compute in Hreq; discriminate].
  rewrite (query_error_status
             (constant_env (Ok {| status_code := 404; resp_content := NPc0 |}) (Ok "1"))
             (sample_provider []) polish sample_hash [] req
             {| status_code := 404; resp_content := NPc0 |} Hreq eq_refl).
  - reflexivity.
  - simpl. lia.
Defined.

(** X14. When the transport fails, [query] raises its exception; the
    request has been sent. *)
Theorem query_transport_failure env self lang h w req e :
  query_request self lang h = Ok req → remote env w req = Raise e →
  query env self lang h w = (Raise e, w ++ [req]).
Proof. intros Hreq Hr. by rewrite query_unfold, Hreq, Hr. Qed.

Lemma query_transport_failure_witness :
  (query (constant_env (Raise RequestException) (Ok "1"))
     (sample_provider []) polish sample_hash []).1 = Raise RequestException.
Proof.
  destruct (query_request (sample_provider []) polish sample_hash) as [req|] eqn:Hreq;
    [|vm_compute in Hreq; discriminate].
  by rewrite (query_transport_failure
                (constant_env (Raise RequestException) (Ok "1"))
                (sample_provider []) polish sample_hash [] req RequestException
                Hreq eq_refl).
Defined.

Lemma query_sent env self lang h w req :
  (query env self lang h w).2 = w ++ [req] →
  query_request self lang h = Ok req.
Proof.
  rewrite query_unfold. destruct (query_request self lang h) as [req'|e]; cbn [snd].
  - by intros [= ->]%app_inv_head.
  - intros Hw. apply (f_equal length) in Hw. rewrite List.length_app in Hw.
    simpl in Hw. lia.
Qed.

Lemma query_world env self lang h w :
  (query env self lang h w).2 = w ∨
  ∃ req, (query env self lang h w).2 = w ++ [req].
Proof.
  rewrite query_unfold. destruct (query_request self lang h) as [req|e]; eauto.
Qed.

(** X15. Every request [query] sends goes to the server URL with a
    timeout of 10, and carries the hash as parameter f, the result of
    [get_subhash], five characters long, as parameter t, the language
    code in capitals as parameter l, and the fixed values of v, kolejka,
    nick, pass and napios. *)
Theorem query_sent_request env self lang h w req :
  (query env self lang h w).2 = w ++ [req] →
  req_url req = server_url ∧ req_timeout req = 10 ∧
  param "f" req = Some h ∧
  (∃ t, get_subhash h = Ok t ∧ param "t" req = Some t ∧ String.length t = 5%nat) ∧
  (∃ l, alpha2 lang = Ok l ∧ param "l" req = Some (upper l)) ∧
  param "v" req = Some "dreambox" ∧ param "kolejka" req = Some "false" ∧
  param "nick" req = Some EmptyString ∧ param "pass" req = Some EmptyString ∧
  param "napios" req = Some "Linux".
Proof.
  intros Hreq%query_sent. unfold query_request in Hreq.
  destruct (alpha2 lang) as [l|] eqn:Hl; [|done].
  destruct (get_subhash h) as [t|] eqn:Ht; [|done].
  destruct (session self) as [s|]; [|done].
  injection Hreq as <-. repeat split; try reflexivity.
  - exists t. repeat split; try reflexivity.
    by destruct (get_subhash_ok_shape _ _ Ht).
  - by exists l.
Qed.

Lemma query_sent_request_witness :
  ∃ t, get_subhash sample_hash = Ok t ∧ String.length t = 5%nat.
Proof.
  destruct (query_request (sample_provider []) polish sample_hash) as [req|] eqn:Hreq;
    [|vm_compute in Hreq; discriminate].
  destruct (query_sent_request (sample_env []) (sample_provider []) polish
              sample_hash [] req) as (_ & _ & _ & (t & Ht & _ & Hlen) & _).
  - rewrite query_unfold, Hreq. reflexivity.
  - by exists t.
Defined.

(** X16. Every request sent by a provider that has been initialised
    carries the provider's user agent in the User-Agent header, whatever
    the headers of a fresh session held under that name. *)
Theorem query_user_agent env p lang h w req :
  (query env (initialize env p) lang h w).2 = w ++ [req] →
  req_headers req !! "User-Agent" = Some (user_agent env).
Proof.
  intros Hreq%query_sent. unfold query_request in Hreq.
  destruct (alpha2 lang) as [l|]; [|done].
  destruct (get_subhash h) as [t|]; [|done].
  cbn in Hreq. injection Hreq as <-. cbn. apply lookup_insert_eq.
Qed.

Lemma query_user_agent_witness :
  ∃ req, (query (constant_env (Raise RequestException) (Ok "1"))
            (initialize (constant_env (Raise RequestException) (Ok "1"))
               NapiProjektProvider_init) polish sample_hash []).2 = [req] ∧
         req_headers req !! "User-Agent" = Some "Subliminal/2.1".
Proof.
  destruct (query_world (constant_env (Raise RequestException) (Ok "1"))
              (initialize (constant_env (Raise RequestException) (Ok "1"))
                 NapiProjektProvider_init) polish sample_hash [])
    as [Hw|[req Hw]]; [vm_compute in Hw; discriminate|].
  exists req. split; [exact Hw|].
  exact (query_user_agent _ _ _ _ _ _ Hw).
Defined.

(** * Further properties of [list_subtitles] *)

(** X17. For a video without a "napiprojekt" hash, [list_subtitles]
    raises [KeyError] as soon as one language is asked for, and returns
    the empty list when none is; in both cases nothing is sent. *)
Theorem list_subtitles_missing_hash env self video languages w :
  hashes video !! "napiprojekt" = None →
  list_subtitles env self video languages w =
  (match languages with [] => Ok [] | _ :: _ => Raise KeyError end, w).
Proof.
  intros Hh. unfold list_subtitles. destruct languages as [|l ls]; [done|].
  cbn [list_subtitles_queries]. unfold mbind, M_bind, lift, dict_getitem.
  by rewrite Hh.
Qed.

Lemma list_subtitles_missing_hash_witness :
  list_subtitles (sample_env []) (sample_provider []) {| hashes := ∅ |}
    [english; polish] [] = (Raise KeyError, []).
Proof.
  exact (list_subtitles_missing_hash (sample_env []) (sample_provider [])
           {| hashes := ∅ |} [english; polish] [] eq_refl).
Defined.

Lemma list_subtitles_queries_abort env self video h ls1 l ls2 w rs w1 e w2 :
  hashes video !! "napiprojekt" = Some h →
  queries_run env self h ls1 w rs w1 →
  query env self l h w1 = (Raise e, w2) →
  list_subtitles_queries env self video (ls1 ++ l :: ls2) w = (Raise e, w2).
Proof.
  intros Hh Hrun Hq.
  induction Hrun as [w|l' ls w r w1 rs w3 Hq' Hrun IH].
  - cbn [app list_subtitles_queries]. unfold mbind, M_bind, lift, dict_getitem.
    by rewrite Hh, Hq.
  - cbn [app list_subtitles_queries]. unfold mbind, M_bind, lift, dict_getitem.
    rewrite Hh, Hq'. unfold mbind, M_bind in IH. by rewrite (IH Hq).
Qed.

(** X18. The first exception ends the listing. When the queries for
    the first languages return and the query for the next one raises,
    [list_subtitles] raises that exception, returns none of the results
    obtained so far, and sends nothing for the languages that follow. *)
Theorem list_subtitles_first_exception env self video h ls1 l ls2 w rs w1 e w2 :
  hashes video !! "napiprojekt" = Some h →
  queries_run env self h ls1 w rs w1 →
  query env self l h w1 = (Raise e, w2) →
  list_subtitles env self video (ls1 ++ l :: ls2) w = (Raise e, w2).
Proof.
  intros Hh Hrun Hq. unfold list_subtitles, mbind, M_bind.
  by rewrite (list_subtitles_queries_abort _ _ _ _ _ _ ls2 _ _ _ _ _ Hh Hrun Hq).
Qed.

Lemma list_subtitles_first_exception_witness :
  (list_subtitles (polish_outcome_env (Raise RequestException))
     (sample_provider []) sample_video [english; polish; french] []).1 =
  Raise RequestException.
Proof.
  change [english; polish; french] with ([english] ++ polish :: [french]).
  erewrite (list_subtitles_first_exception
              (polish_outcome_env (Raise RequestException)) (sample_provider [])
              sample_video sample_hash [english] polish [french] [] [None]).
  - reflexivity.
  - reflexivity.
  - eapply queries_run_cons; [vm_compute; reflexivity | apply queries_run_nil].
  - vm_compute. reflexivity.
Defined.

Lemma get_matches_same_hash s video :
  hashes video !! "napiprojekt" = Some (hash s) →
  get_matches s video = {["hash"]}.
Proof.
  intros Hh. unfold get_matches. rewrite Hh, decide_True by done.
  apply (left_id_L ∅ (∪)).
Qed.

(** X19. Every subtitle [list_subtitles] returns for a video matches
    that video: [get_matches] on it and the video gives the set that
    holds "hash". *)
Theorem listed_subtitles_match_video env self video languages w subtitles w' :
  list_subtitles env self video languages w = (Ok subtitles, w') →
  Forall (λ s, get_matches s video = {["hash"]}) subtitles.
Proof.
  unfold list_subtitles, mbind, M_bind.
  destruct (list_subtitles_queries env self video languages w)
    as [[rs|e] w1] eqn:Hls; [|done].
  intros [= <- <-].
  destruct languages as [|l ls].
  - cbn in Hls. injection Hls as <- <-. constructor.
  - assert (Hne : l :: ls ≠ []) by done.
    destruct (list_subtitles_queries_inv _ _ _ _ _ _ _ Hne Hls)
      as (h & Hh & Hrun).
    destruct (queries_run_records _ _ _ _ _ _ _ Hrun) as [_ Hall].
    eapply Forall_impl; [exact Hall|].
    intros s [Hs _]. apply get_matches_same_hash. by rewrite Hs.
Qed.

Lemma listed_subtitles_match_video_witness :
  Forall (λ s, get_matches s sample_video = {["hash"]})
    [derived_record polish sample_hash
       ("1" +:+ String LF ("00:00:00,000 --> 00:00:01,000" +:+
          String LF "{1}{25}/hello"))].
Proof.
  eapply (listed_subtitles_match_video (sample_env sample_body)
            (sample_provider sample_body) sample_video
            [english; polish; french] []).
  vm_compute. reflexivity.
Defined.

Lemma list_subtitles_queries_world env self video languages : ∀ w,
  ∃ reqs, (list_subtitles_queries env self video languages w).2 = w ++ reqs ∧
          (length reqs ≤ length languages)%nat ∧
          Forall (λ req, ∃ h, hashes video !! "napiprojekt" = Some h ∧
                              param "f" req = Some h) reqs.
Proof.
  induction languages as [|l ls IH]; intros w.
  - exists []. by rewrite app_nil_r.
  - cbn [list_subtitles_queries]. unfold mbind, M_bind, lift, dict_getitem.
    destruct (hashes video !! "napiprojekt") as [h|] eqn:Hh;
      [|exists []; by rewrite app_nil_r; repeat split; [simpl; lia | constructor]].
    assert (Hone : ∃ reqs, (query env self l h w).2 = w ++ reqs ∧
                     (length reqs ≤ 1)%nat ∧
                     Forall (λ req, ∃ h, hashes video !! "napiprojekt" = Some h ∧
                                         param "f" req = Some h) reqs).
    { destruct (query_world env self l h w) as [Hw|[req Hw]].
      - exists []. rewrite app_nil_r. repeat split; [done | simpl; lia | constructor].
      - exists [req]. repeat split; [done | simpl; lia |].
        constructor; [|constructor]. exists h. split; [done|].
        apply query_sent in Hw. unfold query_request in Hw.
        destruct (alpha2 l); [|done]. destruct (get_subhash h); [|done].
        destruct (session self); [|done]. by injection Hw as <-. }
    destruct Hone as (reqs1 & Hw1 & Hlen1 & Hall1).
    destruct (query env self l h w) as [[r|e] w1]; cbn [snd] in Hw1; subst w1.
    + destruct (IH (w ++ reqs1)) as (reqs2 & Hw2 & Hlen2 & Hall2).
      unfold mbind, M_bind in Hw2.
      assert (Hlen : (length (reqs1 ++ reqs2) ≤ length (l :: ls))%nat)
        by (rewrite List.length_app; simpl; lia).
      destruct (list_subtitles_queries env self video ls (w ++ reqs1))
        as [[rs|e] w2]; cbn [snd] in Hw2; subst w2;
        exists (reqs1 ++ reqs2); unfold mret, M_ret; cbn [snd];
        rewrite <- app_assoc; (split; [done|]); (split; [done|]);
        (apply Forall_app_2; [|done]);
        (eapply Forall_impl; [exact Hall1|]);
        intros req (h0 & Hh0 & Hf); exists h0; (split; [congruence | done]).
    + exists reqs1. split; [done|]. split; [simpl; lia|].
      eapply Forall_impl; [exact Hall1|].
      intros req (h0 & Hh0 & Hf). exists h0. split; [congruence | done].
Qed.

(** X20. Whatever happens, [list_subtitles] only adds to the requests
    already sent, adds no more requests than there are languages, and
    every request it adds carries the video's "napiprojekt" hash as
    parameter f. *)
Theorem list_subtitles_requests env self video languages w :
  ∃ reqs, (list_subtitles env self video languages w).2 = w ++ reqs ∧
          (length reqs ≤ length languages)%nat ∧
          Forall (λ req, ∃ h, hashes video !! "napiprojekt" = Some h ∧
                              param "f" req = Some h) reqs.
Proof.
  destruct (list_subtitles_queries_world env self video languages w)
    as (reqs & Hw & Hlen & Hall).
  exists reqs. split; [|done].
  unfold list_subtitles, mbind, M_bind.
  by destruct (list_subtitles_queries env self video languages w) as [[rs|e] w1].
Qed.
